(** * A shallow embedding of the member registry and the JSON serializer mixin

    The development follows the two headers of the library:

    - [MemberStorage.h]: the identity objects [Member_t], the process-wide
      table [storage] of a [MemberStorage<T, StoredType>] instantiation, the
      lookup [get], the registration [registerMember] and the one-time
      initializer [callInitMembers];
    - [Serializer.h]: the field helpers [to_json_simple], [from_json_simple],
      [add_json_to_property], [get_json_for_property], the indirection
      resolver [getMemberRef] and the handler [handleException].

    C++ exceptions, behaviour the language leaves undefined and template
    instantiations the compiler rejects are results of the embedded
    functions, so every function is total and can be evaluated. *)

From stdpp Require Import gmap strings list fin_maps.
From Stdlib Require Import ZArith NArith.

Set Warnings "-register-all".
Local Open Scope string_scope.

(** ** Outcomes of a C++ evaluation *)

(** The objects the code throws.  All of them derive from [std::exception],
    which is what the [catch (std::exception& e)] clauses of [Serializer.h]
    intercept: [std::runtime_error] is thrown by [MemberStorage::get],
    [std::bad_variant_access] by [std::get], and the document library reports
    a missing key ([out_of_range]) or a value of the wrong type
    ([type_error]) with its own subclasses, tagged with the library's error
    number. *)
Inductive exception :=
| runtime_error (what : string)
| bad_variant_access
| out_of_range (id : Z)
| type_error (id : Z).

(** [Undefined] is behaviour outside the language definition (here: reading
    through an empty [std::shared_ptr]); [IllFormed] is a template
    instantiation that does not compile (a member pointer applied to an
    object without that member, [std::get<T>] on a variant without
    alternative [T]). *)
Inductive outcome (A : Type) :=
| Normal (a : A)
| Throw (e : exception)
| Undefined
| IllFormed.
Arguments Normal {A} a.
Arguments Throw {A} e.
Arguments Undefined {A}.
Arguments IllFormed {A}.

#[global] Instance outcome_ret : MRet outcome := λ A a, Normal a.

#[global] Instance outcome_bind : MBind outcome := λ A B k o,
  match o with
  | Normal a => k a
  | Throw e => Throw e
  | Undefined => Undefined
  | IllFormed => IllFormed
  end.

#[global] Instance outcome_fmap : FMap outcome := λ A B f o,
  match o with
  | Normal a => Normal (f a)
  | Throw e => Throw e
  | Undefined => Undefined
  | IllFormed => IllFormed
  end.

(** [try { body } catch (std::exception& e) { handler }]: only a thrown
    exception reaches the handler. *)
Definition try_catch {A} (body : outcome A) (handler : exception → outcome A)
  : outcome A :=
  match body with
  | Throw e => handler e
  | o => o
  end.

Definition throws {A} (o : outcome A) : Prop := ∃ e, o = Throw e.

(** The evaluation has a meaning: it returns or it throws. *)
Definition defined {A} (o : outcome A) : Prop :=
  match o with Normal _ | Throw _ => True | _ => False end.

(** ** The document type of the collaborating library *)

(** [nlohmann::json]: a dynamically typed tree.  An object is a map from key
    strings to documents; numbers are kept to the integers. *)
Inductive json :=
| JNull
| JBool (b : bool)
| JInt (z : Z)
| JStr (s : string)
| JArr (l : list json)
| JObj (m : gmap string json).

(** [source.at(key)] on a constant document: the child under [key]; error
    403 when the object has no such key, error 304 when the document is not
    an object. *)
Definition json_at (key : string) (source : json) : outcome json :=
  match source with
  | JObj m =>
      match m !! key with
      | Some child => Normal child
      | None => Throw (out_of_range 403)
      end
  | _ => Throw (type_error 304)
  end.

(** [target[key] = value]: a null document first becomes an empty object;
    the slot under [key] is created when absent and then assigned; error 305
    when the document is neither null nor an object. *)
Definition json_set (key : string) (value : json) (target : json)
  : outcome json :=
  match target with
  | JNull => Normal (JObj {[ key := value ]})
  | JObj m => Normal (JObj (<[ key := value ]> m))
  | _ => Throw (type_error 305)
  end.

(** The documents a class serializes into: null (fresh) or an object. *)
Definition is_document (j : json) : Prop :=
  match j with JNull | JObj _ => True | _ => False end.

Definition members_of (j : json) : gmap string json :=
  match j with JObj m => m | _ => ∅ end.

(** ** MemberStorage.h *)

(** [typeid(T)]: the facts the code asks of a [std::type_info]. *)
Record type_info := { name : string; hash_code : N }.

(** A pointer to data member [_MemberType _ClassType::*arg]: its two static
    types and the member it selects inside the class (the value that
    [operator==] on member pointers compares). *)
Record MemberPtr := {
  ClassType : type_info;
  MemberType : type_info;
  member_sel : Z
}.

(** The object [Member_t<_ClassType, _MemberType>]: the field [class_hash] of
    its base [MemberTypeBase] and its own field [member]. *)
Record Member_t := { class_hash : N; member : Z }.

(** The constructor [Member_t(arg)]. *)
Definition Member_t_ctor (arg : MemberPtr) : Member_t :=
  {| class_hash := hash_code (ClassType arg); member := member_sel arg |}.

(** [Member_t::isEqual].  The [static_cast] of [rhs] never yields a null
    pointer, so the test [if (ref)] always passes. *)
Definition isEqual (this rhs : Member_t) : bool :=
  if (class_hash this =? class_hash rhs)%N
  then (member rhs =? member this)%Z
  else false.

(** A [MemberTypeBase*] as the table holds it: the address returned by
    [new], together with the object living there (identity objects are never
    modified nor freed). *)
Record MemberTypeBase_ptr := { address : N; pointee : Member_t }.

(** [MemberStorageBase::MemberHasher]. *)
Definition MemberHasher (val : MemberTypeBase_ptr) : N := address val.

(** [MemberStorageBase::MemberEqual]. *)
Definition MemberEqual (val1 val2 : MemberTypeBase_ptr) : bool :=
  isEqual (pointee val1) (pointee val2).

(** [std::find_if] over a sequence: the first element satisfying [p]. *)
Fixpoint find_if {A} (p : A → bool) (l : list A) : option A :=
  match l with
  | [] => None
  | x :: l' => if p x then Some x else find_if p l'
  end.

(** The position of the first element satisfying [p]. *)
Fixpoint find_index {A} (p : A → bool) (l : list A) : option nat :=
  match l with
  | [] => None
  | x :: l' => if p x then Some 0 else S <$> find_index p l'
  end.

(** What the code leaves to the hash table of the standard library.
    [lookup hash equal h l] is the search of [storage[k]] among the nodes
    [l] for a key of hash code [h], where [hash] gives the hash code of a
    node and [equal] tells whether the equality predicate accepts a node's
    key and [k]: a table only answers with the position of a node that the
    predicate accepts, and it does answer when some accepted node carries
    the hash code [h] (which of the nodes it tests, in which order, is up to
    the table).  [link hash l n] is the iteration order after the new node
    [n] has been added to [l], some rearrangement of the nodes. *)
Class unordered_map_policy := {
  lookup : ∀ {A}, (A → N) → (A → bool) → N → list A → option nat;
  lookup_sound : ∀ A (hash : A → N) (equal : A → bool) h l i,
    lookup hash equal h l = Some i → ∃ x, l !! i = Some x ∧ equal x = true;
  lookup_complete : ∀ A (hash : A → N) (equal : A → bool) h l x,
    x ∈ l → hash x = h → equal x = true → is_Some (lookup hash equal h l);
  link : ∀ {A}, (A → N) → list A → A → list A;
  link_perm : ∀ A (hash : A → N) (l : list A) (n : A), link hash l n ≡ₚ n :: l
}.

(** The policy of a table that keeps the hash code in each node and calls
    the equality predicate only on nodes whose code is that of the key, and
    that links a new node at the head of the sequence. *)
#[global] Program Instance cached_hash_policy : unordered_map_policy := {|
  lookup := λ A hash equal h l, find_index (λ x, (hash x =? h)%N && equal x) l;
  link := λ A hash l n, n :: l
|}.
Next Obligation.
  intros A hash equal h l. induction l as [|x l IH]; intros i Hi; [done|].
  cbn [find_index] in Hi.
  destruct ((hash x =? h)%N && equal x) eqn:Hx.
  - injection Hi as <-. exists x. split; [done|].
    by apply andb_true_iff in Hx as [_ ?].
  - destruct (find_index _ l) as [i'|] eqn:Hi'; [|done].
    injection Hi as <-. exact (IH i' eq_refl).
Qed.
Next Obligation.
  intros A hash equal h l x Hx Hh Heq.
  induction l as [|y l IH]; [by apply elem_of_nil in Hx|].
  cbn [find_index].
  destruct ((hash y =? h)%N && equal y) eqn:Hy; [by eexists|].
  apply elem_of_cons in Hx as [->|Hx].
  - apply N.eqb_eq in Hh. by rewrite Hh, Heq in Hy.
  - destruct (IH Hx) as [i Hi]. rewrite Hi. by eexists.
Qed.
Next Obligation. reflexivity. Qed.

#[global] Instance type_info_eq_dec : EqDecision type_info.
Proof. solve_decision. Defined.

#[global] Instance Member_t_eq_dec : EqDecision Member_t.
Proof. solve_decision. Defined.

Module MemberStorage.
Section MemberStorage.
Context {policy : unordered_map_policy}.
Context {StoredType : Type}.

(** An element [std::pair<MemberTypeBase*, StoredType>] of the table. *)
Record node := { key : MemberTypeBase_ptr; mapped : StoredType }.

(** The state of the process that the registry code reads and writes: the
    next address [operator new] hands out (identity objects are never
    freed, so the addresses handed out so far are exactly those below it),
    the static member [storage] of one instantiation
    [MemberStorage<T, StoredType>] as the sequence of its nodes in
    iteration order, and the [std::once_flag]s of [callInitMembers<T>]
    that are set, one flag per type [T]. *)
Record Process := {
  heap_top : N;
  storage : list node;
  once_flags : list type_info
}.

(** The process before any registration. *)
Definition startup : Process :=
  {| heap_top := 1; storage := []; once_flags := [] |}.

(** The predicate that [get] hands to [std::find_if]. *)
Definition get_pred (arg : MemberPtr) (_it : node) : bool :=
  if (class_hash (pointee (key _it)) =? hash_code (ClassType arg))%N
  then (member (pointee (key _it)) =? member_sel arg)%Z
  else false.

(** [MemberStorage::get]. *)
Definition get (arg : MemberPtr) (s : list node) : outcome StoredType :=
  match find_if (get_pred arg) s with
  | Some it => Normal (mapped it)
  | None =>
      Throw (runtime_error ("No storage for " ++ name (ClassType arg)
                            ++ " " ++ name (MemberType arg)))
  end.

(** The hash code of a node's key, and the equality predicate on a node's
    key and the key [k], as the table of [storage] applies them. *)
Definition node_hash (n : node) : N := MemberHasher (key n).

Definition node_equal (k : MemberTypeBase_ptr) (n : node) : bool :=
  MemberEqual (key n) k.

(** [storage[k] = value]: the mapped value of the node that the table finds
    for [k] is assigned; when it finds none, a node for [k] is added. *)
Definition subscript_assign (k : MemberTypeBase_ptr) (value : StoredType)
    (s : list node) : list node :=
  match lookup node_hash (node_equal k) (MemberHasher k) s with
  | Some i => alter (λ n, {| key := key n; mapped := value |}) i s
  | None => link node_hash s {| key := k; mapped := value |}
  end.

(** [MemberStorage::registerMember]:
    [storage[new Member_t(arg)] = value; return true;]. *)
Definition registerMember (arg : MemberPtr) (value : StoredType)
    (p : Process) : bool * Process :=
  let k := {| address := heap_top p; pointee := Member_t_ctor arg |} in
  (true,
   {| heap_top := N.succ (heap_top p);
      storage := subscript_assign k value (storage p);
      once_flags := once_flags p |}).

(** [std::call_once(flag, f)]: nothing happens when the flag is set;
    otherwise [f] runs, and the flag is set only when [f] returns; an
    exception of [f] reaches the caller and leaves the flag unset. *)
Definition call_once (flag : type_info)
    (f : Process → Process * outcome ()) (p : Process)
  : Process * outcome () :=
  if decide (flag ∈ once_flags p) then (p, Normal ())
  else
    let '(p', o) := f p in
    match o with
    | Normal _ =>
        ({| heap_top := heap_top p'; storage := storage p';
            once_flags := flag :: once_flags p' |}, Normal ())
    | _ => (p', o)
    end.

(** [MemberStorageBase::callInitMembers<T>]: the function-local
    static [register_once] is one flag per [T]; [InitMembers] is the
    override of the virtual function that the call reaches. *)
Definition callInitMembers (T : type_info)
    (InitMembers : Process → Process * outcome ()) (p : Process)
  : Process * outcome () :=
  call_once T InitMembers p.

(** The nodes whose identity object denotes the member [arg], in
    iteration order, and their number. *)
Definition entries (arg : MemberPtr) (s : list node) : list node :=
  filter (λ n, pointee (key n) = Member_t_ctor arg) s.

Definition entries_for (arg : MemberPtr) (s : list node) : nat :=
  length (entries arg s).

End MemberStorage.
End MemberStorage.

(** ** Serializer.h *)

(** The conversions of the document library that the helpers reach:
    [target[name] = value] converts a C++ value of type [T] to a document,
    [j.get_to(ref)] converts a document to a [T] and assigns it to [ref].
    [ty] names the C++ types that are converted, [val] holds their values.
    A conversion from a document either produces the new value or throws;
    a conversion to a document returns. *)
Class adl_serializer (ty val : Type) := {
  adl_to_json : ty → val → json;
  adl_from_json : ty → json → outcome val
}.

(** The shape of a member's declared type [_MemberType], as the traits
    [is_variant] and [is_shared_ptr] see it. *)
Inductive member_type (ty : Type) :=
| direct
| variant (alts : list ty)
| shared_ptr.
Arguments direct {ty}.
Arguments variant {ty} alts.
Arguments shared_ptr {ty}.

Definition is_variant_v {ty} (T : member_type ty) : bool :=
  match T with variant _ => true | _ => false end.

Definition is_shared_ptr_v {ty} (T : member_type ty) : bool :=
  match T with shared_ptr => true | _ => false end.

(** The template arguments of a [std::variant]. *)
Definition alternatives {ty} (T : member_type ty) : list ty :=
  match T with variant alts => alts | _ => [] end.

(** What an object stores in a member: a value; a [std::variant] holding the
    alternative number [index]; a [std::shared_ptr], empty ([None]) or
    owning a value. *)
Inductive field (val : Type) :=
| Value (v : val)
| VariantValue (index : nat) (v : val)
| SharedPtr (p : option val).
Arguments Value {val} v.
Arguments VariantValue {val} index v.
Arguments SharedPtr {val} p.

(** The positions at which [T] occurs in a list of alternatives. *)
Fixpoint positions `{EqDecision ty} (T : ty) (alts : list ty) (i : nat)
  : list nat :=
  match alts with
  | [] => []
  | U :: alts' =>
      if decide (T = U) then i :: positions T alts' (S i)
      else positions T alts' (S i)
  end.

(** [std::get<T>(v)] on a variant over [alts] that holds alternative number
    [index]: [T] has to occur exactly once among the alternatives for the
    call to compile; the call throws unless that alternative is the one
    held. *)
Definition std_get `{EqDecision ty} {val} (T : ty) (alts : list ty)
    (index : nat) (v : val) : outcome val :=
  match positions T alts 0 with
  | [i] => if decide (index = i) then Normal v else Throw bad_variant_access
  | _ => IllFormed
  end.

Module Serializer.
Section Serializer.
Context {policy : unordered_map_policy}.
Context {ty val : Type} `{EqDecision ty} {conv : adl_serializer ty val}.

(** An object of the class that owns the members, as a map from the member
    selected by a member pointer to what the object stores there. *)
Abbreviation Instance := (gmap Z (field val)).

(** The table of [Serializer<T>], that is [MemberStorage<Serializer<T>,
    std::string>::storage]. *)
Abbreviation Storage := (list (MemberStorage.node (StoredType := string))).

(** The process state around that table. *)
Abbreviation Process := (MemberStorage.Process (StoredType := string)).

(** A [_TargetType&]: the value at the place referred to, and the object
    that results from assigning to the place. *)
Record reference := { referent : val; store : val → Instance }.

(** [Serializer::handleException]: the body prints under [DEBUG] and
    returns; the statement that would throw [SerializerException] is
    commented out. *)
Definition handleException (e : exception) : outcome () := mret ().

(** [Serializer::getMemberRef], the overload on a constant object:
    [instance.*arg], then the three branches of the [if constexpr]. *)
Definition getMemberRef (_TargetType : ty) (_MemberType : member_type ty)
    (arg : MemberPtr) (instance : Instance) : outcome val :=
  match instance !! member_sel arg with
  | None => IllFormed
  | Some f =>
      if is_variant_v _MemberType then
        match f with
        | VariantValue index v =>
            std_get _TargetType (alternatives _MemberType) index v
        | _ => IllFormed
        end
      else if is_shared_ptr_v _MemberType then
        match f with
        | SharedPtr (Some v) => Normal v
        | SharedPtr None => Undefined
        | _ => IllFormed
        end
      else
        match f with
        | Value v => Normal v
        | _ => IllFormed
        end
  end.

(** [Serializer::getMemberRef], the overload on a mutable object. *)
Definition getMemberRef_mut (_TargetType : ty) (_MemberType : member_type ty)
    (arg : MemberPtr) (instance : Instance) : outcome reference :=
  match instance !! member_sel arg with
  | None => IllFormed
  | Some f =>
      if is_variant_v _MemberType then
        match f with
        | VariantValue index v =>
            _ ← std_get _TargetType (alternatives _MemberType) index v;
            mret {| referent := v;
                    store := λ w, <[member_sel arg := VariantValue index w]>
                                    instance |}
        | _ => IllFormed
        end
      else if is_shared_ptr_v _MemberType then
        match f with
        | SharedPtr (Some v) =>
            mret {| referent := v;
                    store := λ w, <[member_sel arg := SharedPtr (Some w)]>
                                    instance |}
        | SharedPtr None => Undefined
        | _ => IllFormed
        end
      else
        match f with
        | Value v =>
            mret {| referent := v;
                    store := λ w, <[member_sel arg := Value w]> instance |}
        | _ => IllFormed
        end
  end.

(** [j.get_to(ref)]: convert, then assign through the reference. *)
Definition get_to (_TargetType : ty) (j : json) (ref : reference)
  : outcome Instance :=
  w ← adl_from_json _TargetType j; mret (store ref w).

(** [Serializer::to_json_simple], the static overload (the member overload
    passes this object, cast to [_ClassType], as the instance).  The result
    is the [target] after the call.  The right operand of the assignment is
    evaluated before [target[name]]. *)
Definition to_json_simple (s : Storage) (_MemberType : member_type ty)
    (_TargetType : ty) (target : json) (arg : MemberPtr) (instance : Instance)
  : outcome json :=
  try_catch
    (name ← MemberStorage.get arg s;
     v ← getMemberRef _TargetType _MemberType arg instance;
     json_set name (adl_to_json _TargetType v) target)
    (λ e, _ ← handleException e; mret target).

(** [Serializer::from_json_simple], the static overload (the member
    overload passes this object, cast to [_ClassType], as the instance).
    The result is the [instance] after the call.  [source.at(name)] is
    evaluated before the argument of [get_to]. *)
Definition from_json_simple (s : Storage) (_MemberType : member_type ty)
    (_TargetType : ty) (source : json) (arg : MemberPtr) (instance : Instance)
  : outcome Instance :=
  try_catch
    (name ← MemberStorage.get arg s;
     j ← json_at name source;
     ref ← getMemberRef_mut _TargetType _MemberType arg instance;
     get_to _TargetType j ref)
    (λ e, _ ← handleException e; mret instance).

(** [Serializer::add_json_to_property]; the result is the [target] after the
    call. *)
Definition add_json_to_property (s : Storage) (target : json)
    (arg : MemberPtr) (source : json) : outcome json :=
  try_catch
    (name ← MemberStorage.get arg s;
     json_set name source target)
    (λ e, _ ← handleException e; mret target).

(** [Serializer::get_json_for_property]. *)
Definition get_json_for_property (s : Storage) (source : json)
    (arg : MemberPtr) : outcome json :=
  try_catch
    (name ← MemberStorage.get arg s;
     json_at name source)
    (λ e, _ ← handleException e; mret JNull).

(** The macro [SERIALIZER_ADD_MEMBER(Class, Member)]: the statement
    [Class::registerMember(&Class::Member, #Member);], whose result is
    dropped. *)
Definition SERIALIZER_ADD_MEMBER (arg : MemberPtr) (Member : string)
    (p : Process) : Process :=
  (MemberStorage.registerMember arg Member p).2.

(** One field of a class: the template arguments and the member pointer
    with which the class calls the helpers for it. *)
Record field_op := {
  op_MemberType : member_type ty;
  op_TargetType : ty;
  op_arg : MemberPtr
}.

(** Modelled from the spec: the overrides of the pure virtual functions
    [Serializer::to_json] and [Serializer::from_json] belong to the classes
    that use the mixin; a class implements them "by calling the above
    helpers for each of its fields in turn".  A class is given by the list
    of its fields; its [to_json] calls [to_json_simple] for each of them. *)
Fixpoint to_json (s : Storage) (fields : list field_op) (instance : Instance)
    (j : json) : outcome json :=
  match fields with
  | [] => mret j
  | f :: fields' =>
      j' ← to_json_simple s (op_MemberType f) (op_TargetType f) j (op_arg f)
             instance;
      to_json s fields' instance j'
  end.

(** Modelled from the spec: the override of [Serializer::from_json], which
    calls [from_json_simple] for each field in turn. *)
Fixpoint from_json (s : Storage) (fields : list field_op) (j : json)
    (instance : Instance) : outcome Instance :=
  match fields with
  | [] => mret instance
  | f :: fields' =>
      instance' ← from_json_simple s (op_MemberType f) (op_TargetType f) j
                    (op_arg f) instance;
      from_json s fields' j instance'
  end.

(** Modelled from the spec: the override of the pure virtual
    [MemberStorageBase::InitMembers] belongs to the class; it invokes the
    registration macro "once per member, inside its one-time initializer".
    A class declares its members as pairs of a member pointer and the
    member's name. *)
Definition InitMembers (members : list (MemberPtr * string))
    (p : Process) : Process * outcome () :=
  (foldl (λ p m, SERIALIZER_ADD_MEMBER m.1 m.2 p) p members, Normal ()).

(** [n] calls of [callInitMembers<T>] in a row, stopping at the first one
    that does not return. *)
Fixpoint construct (n : nat) (T : type_info)
    (init : Process → Process * outcome ())
    (p : Process) : Process * outcome () :=
  match n with
  | O => (p, Normal ())
  | S n' =>
      let '(p', o) := MemberStorage.callInitMembers T init p in
      match o with
      | Normal _ => construct n' T init p'
      | _ => (p', o)
      end
  end.

(** The field [f] of [instance] is in a state that the helpers resolve: the
    member is there, a variant holds the alternative that the class
    serializes, a [std::shared_ptr] owns a value; [v] is the value reached. *)
Definition resolves (f : field_op) (instance : Instance) (v : val) : Prop :=
  getMemberRef (op_TargetType f) (op_MemberType f) (op_arg f) instance
  = Normal v.

(** The document conversions of type [T] give [v] back. *)
Definition lossless (T : ty) (v : val) : Prop :=
  adl_from_json T (adl_to_json T v) = Normal v.

(** The members that the fields of a class select. *)
Definition selected (fields : list field_op) : list Z :=
  (λ f, member_sel (op_arg f)) <$> fields.

End Serializer.
End Serializer.

(** ** Two classes that use the mixin *)

(** A small instance of the document conversions, and two classes on it:
    [Point { int x; int y; }], and
    [Shape { std::variant<int, std::string> tag; std::shared_ptr<int> weight;
    bool visible; }].  The hash table is one that compares the stored hash
    codes first ([cached_hash_policy]). *)
Module Demo.

Inductive ty := Tint | Tstring | Tbool.

Inductive val := Vint (z : Z) | Vstring (s : string) | Vbool (b : bool).

#[global] Instance ty_eq_dec : EqDecision ty.
Proof. solve_decision. Defined.

#[global] Instance conv : adl_serializer ty val := {|
  adl_to_json := λ _ v,
    match v with
    | Vint z => JInt z
    | Vstring s => JStr s
    | Vbool b => JBool b
    end;
  adl_from_json := λ T j,
    match T, j with
    | Tint, JInt z => Normal (Vint z)
    | Tstring, JStr s => Normal (Vstring s)
    | Tbool, JBool b => Normal (Vbool b)
    | _, _ => Throw (type_error 302)
    end
|}.

Definition typeid_int : type_info := {| name := "i"; hash_code := 11 |}.
Definition typeid_bool : type_info := {| name := "b"; hash_code := 12 |}.
Definition typeid_variant : type_info :=
  {| name := "St7variantIJiSsEE"; hash_code := 13 |}.
Definition typeid_shared_ptr : type_info :=
  {| name := "St10shared_ptrIiE"; hash_code := 14 |}.
Definition typeid_Point : type_info := {| name := "5Point"; hash_code := 101 |}.
Definition typeid_Shape : type_info := {| name := "5Shape"; hash_code := 102 |}.

Definition Point_x : MemberPtr :=
  {| ClassType := typeid_Point; MemberType := typeid_int; member_sel := 0 |}.
Definition Point_y : MemberPtr :=
  {| ClassType := typeid_Point; MemberType := typeid_int; member_sel := 4 |}.

Definition Shape_tag : MemberPtr :=
  {| ClassType := typeid_Shape; MemberType := typeid_variant;
     member_sel := 0 |}.
Definition Shape_weight : MemberPtr :=
  {| ClassType := typeid_Shape; MemberType := typeid_shared_ptr;
     member_sel := 40 |}.
Definition Shape_visible : MemberPtr :=
  {| ClassType := typeid_Shape; MemberType := typeid_bool;
     member_sel := 56 |}.

Definition tag_alternatives : list ty := [Tint; Tstring].

(** The bodies of [Point::InitMembers] and [Shape::InitMembers]. *)
Definition Point_members : list (MemberPtr * string) :=
  [(Point_x, "x"); (Point_y, "y")].
Definition Shape_members : list (MemberPtr * string) :=
  [(Shape_tag, "tag"); (Shape_weight, "weight"); (Shape_visible, "visible")].

(** The fields that [Point::to_json] and [Point::from_json], and those of
    [Shape], hand to the helpers; [Shape] serializes the [std::string]
    alternative of [tag]. *)
Definition Point_fields : list (Serializer.field_op (ty := ty)) :=
  [ {| Serializer.op_MemberType := direct; Serializer.op_TargetType := Tint;
       Serializer.op_arg := Point_x |};
    {| Serializer.op_MemberType := direct; Serializer.op_TargetType := Tint;
       Serializer.op_arg := Point_y |} ].
Definition Shape_fields : list (Serializer.field_op (ty := ty)) :=
  [ {| Serializer.op_MemberType := variant tag_alternatives;
       Serializer.op_TargetType := Tstring; Serializer.op_arg := Shape_tag |};
    {| Serializer.op_MemberType := shared_ptr;
       Serializer.op_TargetType := Tint; Serializer.op_arg := Shape_weight |};
    {| Serializer.op_MemberType := direct;
       Serializer.op_TargetType := Tbool; Serializer.op_arg := Shape_visible |} ].

(** The tables after the first construction of a [Point], of a [Shape]. *)
Definition Point_process : MemberStorage.Process (StoredType := string) :=
  (Serializer.construct 1 typeid_Point (Serializer.InitMembers Point_members)
     MemberStorage.startup).1.
Definition Shape_process : MemberStorage.Process (StoredType := string) :=
  (Serializer.construct 1 typeid_Shape (Serializer.InitMembers Shape_members)
     MemberStorage.startup).1.

(** Objects. *)
Definition point (x y : Z) : gmap Z (field val) :=
  {[ 0%Z := Value (Vint x); 4%Z := Value (Vint y) ]}.

Definition shape (tag : nat * val) (weight : option Z) (visible : bool)
  : gmap Z (field val) :=
  {[ 0%Z := VariantValue tag.1 tag.2;
     40%Z := SharedPtr (Vint <$> weight);
     56%Z := Value (Vbool visible) ]}.

End Demo.

(** ** Notions for the further properties *)

(** The table of a process is well formed: every key of the table lives at
    an address that [operator new] has handed out, and no two keys live at
    the same address. *)
Definition well_formed {StoredType}
    (p : MemberStorage.Process (StoredType := StoredType)) : Prop :=
  Forall (λ n, (address (MemberStorage.key n) < MemberStorage.heap_top p)%N)
    (MemberStorage.storage p) ∧
  NoDup ((λ n, address (MemberStorage.key n)) <$> MemberStorage.storage p).

(** A sequence of [SERIALIZER_ADD_MEMBER] statements, one per pair of a
    member pointer and a name. *)
Definition add_members `{policy : unordered_map_policy}
    (members : list (MemberPtr * string))
    (p : MemberStorage.Process (StoredType := string))
  : MemberStorage.Process (StoredType := string) :=
  foldl (λ p m, Serializer.SERIALIZER_ADD_MEMBER m.1 m.2 p) p members.

(** Two states of a member have the same shape: both hold a value directly,
    or both are variants holding the same alternative, or both are
    [std::shared_ptr]s that are both empty or both owning. *)
Definition same_shape {val} (f g : field val) : Prop :=
  match f, g with
  | Value _, Value _ => True
  | VariantValue i _, VariantValue j _ => i = j
  | SharedPtr p, SharedPtr q => is_Some p ↔ is_Some q
  | _, _ => False
  end.

(** The hash table only finds nodes whose stored hash code is that of the
    key looked up (tables that keep the hash code in each node and compare
    it before calling the equality predicate). *)
Definition compares_hash_codes (policy : unordered_map_policy) : Prop :=
  ∀ A (hash : A → N) (equal : A → bool) h l i,
    lookup hash equal h l = Some i → ∃ x, l !! i = Some x ∧ hash x = h.

(** The evaluation returns. *)
Definition returns {A} (o : outcome A) : Prop := ∃ a, o = Normal a.

(** A routine that registers the members [x] and [y] of [Point] and then
    throws, and one that registers them and returns. *)
Definition throwing_init
    (p : MemberStorage.Process (StoredType := string))
  : MemberStorage.Process (StoredType := string) * outcome () :=
  (add_members Demo.Point_members p, Throw (runtime_error "init")).

Definition returning_init
    (p : MemberStorage.Process (StoredType := string))
  : MemberStorage.Process (StoredType := string) * outcome () :=
  (add_members Demo.Point_members p, Normal ()).

(** * Properties *)

(** ** Outcomes *)

Lemma try_catch_Normal {A} (a : A) handler :
  try_catch (Normal a) handler = Normal a.
Proof. reflexivity. Qed.

Lemma try_catch_Throw {A} e (handler : exception → outcome A) :
  try_catch (Throw e) handler = handler e.
Proof. reflexivity. Qed.

Lemma find_if_filter {A} (p : A → bool) (l : list A) :
  find_if p l = head (filter (λ x, p x = true) l).
Proof.
  induction l as [|x l IH]; [done|].
  cbn [find_if]. rewrite filter_cons.
  destruct (p x) eqn:Hp.
  - by rewrite decide_True.
  - rewrite decide_False by congruence. exact IH.
Qed.

(** ** The registry *)

Section registry.
Context {policy : unordered_map_policy}.
Context {StoredType : Type}.
Import MemberStorage.

Implicit Types (s : list (node (StoredType := StoredType))).
Implicit Types (p : Process (StoredType := StoredType)).
Implicit Types (arg : MemberPtr) (k : MemberTypeBase_ptr).

Lemma isEqual_eq (a b : Member_t) : isEqual a b = true ↔ a = b.
Proof.
  unfold isEqual. destruct a as [ha ma], b as [hb mb]; simpl.
  destruct (N.eqb_spec ha hb) as [->|Hh].
  - rewrite Z.eqb_eq. split; [by intros ->|]. by intros [= ->].
  - split; [done|]. intros [= ? ?]. done.
Qed.

Lemma MemberEqual_eq k1 k2 :
  MemberEqual k1 k2 = true ↔ pointee k1 = pointee k2.
Proof. apply isEqual_eq. Qed.

Lemma get_pred_eq arg (n : node (StoredType := StoredType)) :
  get_pred arg n = true ↔ pointee (key n) = Member_t_ctor arg.
Proof.
  unfold get_pred, Member_t_ctor. destruct (pointee (key n)) as [h m]; simpl.
  destruct (N.eqb_spec h (hash_code (ClassType arg))) as [->|Hh].
  - rewrite Z.eqb_eq. split; [by intros ->|]. by intros [= ->].
  - split; [done|]. intros [= ? ?]. done.
Qed.

(** [get] returns what the first node for the member holds. *)
Lemma get_entries arg s :
  get arg s =
    match entries arg s with
    | n :: _ => Normal (mapped n)
    | [] => Throw (runtime_error ("No storage for " ++ name (ClassType arg)
                                  ++ " " ++ name (MemberType arg)))
    end.
Proof.
  unfold get, entries. rewrite find_if_filter.
  assert (filter (λ x, get_pred arg x = true) s
          = filter (λ n, pointee (key n) = Member_t_ctor arg) s) as ->.
  { apply list_filter_iff. intros n. apply get_pred_eq. }
  by destruct (filter _ s).
Qed.

(** The table tells member pointers apart by the hash code of the class
    and the member selected, and by nothing else. *)
Lemma entries_same_identity arg arg' s :
  Member_t_ctor arg = Member_t_ctor arg' → entries arg s = entries arg' s.
Proof. intros Heq. unfold entries. by rewrite Heq. Qed.

Lemma entries_Permutation arg s s' : s ≡ₚ s' → entries arg s ≡ₚ entries arg s'.
Proof. intros Hp. unfold entries. by rewrite Hp. Qed.

(** Assigning to the mapped value of a node changes neither which nodes
    belong to a member nor, for a member other than the node's, its nodes. *)
Lemma entries_for_alter arg (value : StoredType) i s :
  entries_for arg (alter (λ n, {| key := key n; mapped := value |}) i s)
  = entries_for arg s.
Proof.
  unfold entries_for, entries. revert i.
  induction s as [|n s IH]; intros i; [done|].
  destruct i as [|i].
  - change (alter ?f 0 (n :: s)) with (f n :: s).
    rewrite !filter_cons. simpl.
    by destruct (decide (pointee (key n) = Member_t_ctor arg)).
  - change (alter ?f (S i) (n :: s)) with (n :: alter f i s).
    rewrite !filter_cons. specialize (IH i).
    destruct (decide (pointee (key n) = Member_t_ctor arg)); simpl;
      by rewrite IH.
Qed.

Lemma entries_alter_ne arg (value : StoredType) i s n :
  s !! i = Some n →
  pointee (key n) ≠ Member_t_ctor arg →
  entries arg (alter (λ n, {| key := key n; mapped := value |}) i s)
  = entries arg s.
Proof.
  unfold entries. revert i.
  induction s as [|n' s IH]; intros i Hi Hne; [done|].
  destruct i as [|i].
  - injection Hi as ->.
    change (alter ?f 0 (n :: s)) with (f n :: s).
    rewrite !filter_cons. simpl. by rewrite !decide_False.
  - change (alter ?f (S i) (n' :: s)) with (n' :: alter f i s).
    rewrite !filter_cons. by rewrite (IH i Hi Hne).
Qed.

(** A key whose member has no node is found by no lookup. *)
Lemma lookup_absent k s :
  (∀ n, n ∈ s → pointee (key n) ≠ pointee k) →
  lookup node_hash (node_equal k) (MemberHasher k) s = None.
Proof.
  intros Hs.
  destruct (lookup _ _ _ s) as [i|] eqn:Hi; [|done].
  apply lookup_sound in Hi as (n & Hn & Heq).
  apply MemberEqual_eq in Heq.
  destruct (Hs n); [|done]. by apply list_elem_of_lookup_2 in Hn.
Qed.

(** The node that a lookup finds belongs to the member of the key. *)
Lemma lookup_found k s i :
  lookup node_hash (node_equal k) (MemberHasher k) s = Some i →
  ∃ n, s !! i = Some n ∧ pointee (key n) = pointee k.
Proof.
  intros Hi. apply lookup_sound in Hi as (n & Hn & Heq).
  exists n. split; [done|]. by apply MemberEqual_eq in Heq.
Qed.

Lemma entries_link arg s (n : node (StoredType := StoredType)) :
  entries arg (link node_hash s n) ≡ₚ entries arg (n :: s).
Proof. apply entries_Permutation, link_perm. Qed.

Lemma entries_for_0 arg s :
  entries_for arg s = 0 ↔ ∀ n, n ∈ s → pointee (key n) ≠ Member_t_ctor arg.
Proof.
  unfold entries_for, entries. rewrite length_zero_iff_nil. split.
  - intros Hnil n Hn Heq.
    eapply (filter_nil_not_elem_of _ s n Hnil); done.
  - intros Hs. induction s as [|n s IH]; [done|].
    rewrite filter_cons_False; [|apply Hs; left].
    apply IH. intros n' Hn'. apply Hs. by right.
Qed.

(** Registering a member that has no node adds exactly one node, which
    holds the value. *)
Lemma subscript_assign_absent arg a (value : StoredType) s :
  entries_for arg s = 0 →
  entries arg (subscript_assign {| address := a; pointee := Member_t_ctor arg |}
                 value s)
  = [ {| key := {| address := a; pointee := Member_t_ctor arg |};
         mapped := value |} ].
Proof.
  intros H0. unfold subscript_assign.
  rewrite lookup_absent; [|by apply entries_for_0].
  apply Permutation_singleton_r. rewrite entries_link.
  unfold entries. rewrite filter_cons_True by done.
  apply length_zero_iff_nil in H0. unfold entries in H0. by rewrite H0.
Qed.

(** Registering a member leaves the nodes of every other member alone, up
    to their order. *)
Lemma subscript_assign_other arg k (value : StoredType) s :
  pointee k ≠ Member_t_ctor arg →
  entries arg (subscript_assign k value s) ≡ₚ entries arg s.
Proof.
  intros Hne. unfold subscript_assign.
  destruct (lookup _ _ _ s) as [i|] eqn:Hi.
  - apply lookup_found in Hi as (n & Hn & Heq).
    rewrite (entries_alter_ne _ _ _ _ n); [done..|congruence].
  - rewrite entries_link. unfold entries. by rewrite filter_cons_False.
Qed.

End registry.

Section registry_claims.
Context {policy : unordered_map_policy}.
Context {StoredType : Type}.
Import MemberStorage.

Implicit Types (s : list (node (StoredType := StoredType))).
Implicit Types (p : Process (StoredType := StoredType)).
Implicit Types (arg : MemberPtr).

(** C2: [get] throws [std::runtime_error] for a member pointer that has no
    entry in the table, whatever the table holds otherwise, and never
    returns a value then; for a member pointer that has an entry it returns
    the mapped value of an entry of that member, which is the value
    registered for the member whenever its entries agree on it. *)
Theorem get_registered_or_throws arg s :
  (entries_for arg s = 0 →
   get arg s = Throw (runtime_error ("No storage for " ++ name (ClassType arg)
                                     ++ " " ++ name (MemberType arg)))) ∧
  (entries_for arg s ≠ 0 →
   ∃ n, n ∈ s ∧ pointee (key n) = Member_t_ctor arg
        ∧ get arg s = Normal (mapped n)) ∧
  (∀ value, entries_for arg s ≠ 0 →
     Forall (λ n, mapped n = value) (entries arg s) →
     get arg s = Normal value).
Proof.
  rewrite get_entries. unfold entries_for.
  destruct (entries arg s) as [|n l] eqn:He; simpl.
  - split; [done|]. split; [done|]. intros value Hne. done.
  - split; [done|]. split.
    + intros _. exists n. split_and!; [| |done].
      * assert (n ∈ entries arg s) as Hn by (rewrite He; left).
        unfold entries in Hn. by apply list_elem_of_filter in Hn as [_ ?].
      * assert (n ∈ entries arg s) as Hn by (rewrite He; left).
        unfold entries in Hn. by apply list_elem_of_filter in Hn as [? _].
    + intros value _ Hall. apply Forall_cons in Hall as [-> _]. done.
Qed.

(** C4, as the code has it: [registerMember] always answers [true]; when the
    member has no entry, the call adds exactly one entry for it, which holds
    the value, so that [get] returns the value afterwards; the call never
    changes how many entries another member has. *)
Theorem registerMember_answers_true arg (value : StoredType) p :
  (registerMember arg value p).1 = true ∧
  (entries_for arg (storage p) = 0 →
   entries_for arg (storage (registerMember arg value p).2) = 1 ∧
   get arg (storage (registerMember arg value p).2) = Normal value) ∧
  (∀ arg', Member_t_ctor arg' ≠ Member_t_ctor arg →
     entries_for arg' (storage (registerMember arg value p).2)
     = entries_for arg' (storage p)).
Proof.
  split; [done|]. split.
  - intros H0. cbn [registerMember snd storage].
    rewrite get_entries. unfold entries_for.
    by rewrite (subscript_assign_absent arg _ value _ H0).
  - intros arg' Hne. cbn [registerMember snd storage]. unfold entries_for.
    by rewrite subscript_assign_other.
Qed.

(** The answer of [registerMember] is [true] also when the member already
    has an entry, under every policy of the table. *)
Lemma registerMember_again arg (v1 v2 : StoredType) p :
  let p1 := (registerMember arg v1 p).2 in
  entries_for arg (storage p1) ≠ 0 ∧ (registerMember arg v2 p1).1 = true.
Proof.
  split; [|done]. cbn [registerMember snd storage].
  unfold subscript_assign.
  destruct (lookup _ _ _ (storage p)) as [i|] eqn:Hi.
  - rewrite entries_for_alter.
    destruct (entries_for arg (storage p)) eqn:H0; [|done].
    rewrite lookup_absent in Hi; [done|].
    by apply entries_for_0.
  - unfold entries_for. rewrite entries_link. unfold entries.
    by rewrite filter_cons_True.
Qed.

(** C5: two identity objects made from one member pointer are equal for
    [MemberEqual] wherever they live, but [MemberHasher] gives them the same
    hash code only when they live at the same address. *)
Theorem MemberHasher_is_the_address arg (a1 a2 : N) :
  let k1 := {| address := a1; pointee := Member_t_ctor arg |} in
  let k2 := {| address := a2; pointee := Member_t_ctor arg |} in
  MemberEqual k1 k2 = true ∧ (MemberHasher k1 = MemberHasher k2 ↔ a1 = a2).
Proof. split; [by apply isEqual_eq|done]. Qed.

End registry_claims.

(** ** The field helpers *)

Lemma json_set_document name value target :
  is_document target →
  json_set name value target
  = Normal (JObj (<[name := value]> (members_of target))).
Proof. by destruct target. Qed.

Lemma json_at_members name source :
  json_at name source =
    match members_of source !! name with
    | Some child => Normal child
    | None =>
        Throw (match source with
               | JObj _ => out_of_range 403
               | _ => type_error 304
               end)
    end.
Proof. destruct source as [| | | | |m]; [done..|]. simpl. by destruct (m !! name). Qed.

Section helpers.
Context {policy : unordered_map_policy}.
Context {ty val : Type} `{EqDecision ty} {conv : adl_serializer ty val}.
Import MemberStorage Serializer.

Implicit Types (s : list (node (StoredType := string))).
Implicit Types (arg : MemberPtr) (instance : gmap Z (field val)).
Implicit Types (M : member_type ty) (T : ty).

Lemma get_defined arg s : defined (get arg s).
Proof. unfold get. by destruct (find_if _ s). Qed.

Lemma get_unregistered arg s :
  entries_for arg s = 0 →
  get arg s = Throw (runtime_error ("No storage for " ++ name (ClassType arg)
                                    ++ " " ++ name (MemberType arg))).
Proof.
  intros H0. rewrite get_entries.
  apply length_zero_iff_nil in H0. by rewrite H0.
Qed.

(** The two overloads of [getMemberRef] resolve alike. *)
Lemma getMemberRef_mut_referent T M arg instance :
  referent <$> getMemberRef_mut T M arg instance
  = getMemberRef T M arg instance.
Proof.
  unfold getMemberRef_mut, getMemberRef.
  destruct (instance !! member_sel arg) as [f|]; [|done].
  destruct M as [|alts|], f as [v|i v|[v|]]; try done.
  cbn. unfold std_get. destruct (positions T alts 0) as [|? [|]]; try done.
  by case_decide.
Qed.

Lemma std_get_held T alts index (v : val) :
  positions T alts 0 = [index] → std_get T alts index v = Normal v.
Proof. intros Hp. unfold std_get. rewrite Hp. by rewrite decide_True. Qed.

Lemma std_get_other T alts i index (v : val) :
  positions T alts 0 = [i] → index ≠ i →
  std_get T alts index v = Throw bad_variant_access.
Proof. intros Hp Hne. unfold std_get. rewrite Hp. by rewrite decide_False. Qed.

(** C3, as the code has it: for a member pointer without an entry, [get]
    throws [std::runtime_error], and [to_json_simple] catches it: the call
    returns to its caller and the target document is as it was. *)
Theorem to_json_simple_swallows_unregistered s M T target arg instance :
  entries_for arg s = 0 →
  get arg s = Throw (runtime_error ("No storage for " ++ name (ClassType arg)
                                    ++ " " ++ name (MemberType arg))) ∧
  to_json_simple s M T target arg instance = Normal target.
Proof.
  intros H0. split; [by apply get_unregistered|].
  unfold to_json_simple. by rewrite (get_unregistered _ _ H0).
Qed.

(** C10: [get_json_for_property] always returns a document to its caller;
    the document is null when the member pointer has no entry and when the
    source document has no child under the member's key; otherwise it is the
    child under the member's key. *)
Theorem get_json_for_property_returns s source arg :
  (∃ j, get_json_for_property s source arg = Normal j) ∧
  (entries_for arg s = 0 → get_json_for_property s source arg = Normal JNull) ∧
  (∀ name, get arg s = Normal name → members_of source !! name = None →
     get_json_for_property s source arg = Normal JNull) ∧
  (∀ name child, get arg s = Normal name →
     members_of source !! name = Some child →
     get_json_for_property s source arg = Normal child).
Proof.
  unfold get_json_for_property. split_and!.
  - pose proof (get_defined arg s) as Hd.
    destruct (get arg s) as [name| | |]; try done; simpl; [|by eexists].
    rewrite json_at_members.
    destruct (members_of source !! name); simpl; by eexists.
  - intros H0. by rewrite (get_unregistered _ _ H0).
  - intros name -> Hnone. simpl. rewrite json_at_members. by rewrite Hnone.
  - intros name child -> Hsome. simpl. rewrite json_at_members.
    by rewrite Hsome.
Qed.


(** C8: on a registered variant member that holds alternative [B],
    [getMemberRef] for another alternative [A] throws
    [std::bad_variant_access] and [to_json_simple] for [A] leaves the target
    document as it was, so no key is inserted; [to_json_simple] for [B]
    stores the conversion of the held value under the member's key. *)
Theorem to_json_simple_variant s alts A B a b (v : val) target arg instance
    name :
  get arg s = Normal name →
  instance !! member_sel arg = Some (VariantValue b v) →
  positions A alts 0 = [a] →
  positions B alts 0 = [b] →
  a ≠ b →
  is_document target →
  getMemberRef A (variant alts) arg instance = Throw bad_variant_access ∧
  to_json_simple s (variant alts) A target arg instance = Normal target ∧
  to_json_simple s (variant alts) B target arg instance
  = Normal (JObj (<[name := adl_to_json B v]> (members_of target))).
Proof.
  intros Hget Hfield HA HB Hne Hdoc.
  assert (getMemberRef A (variant alts) arg instance = Throw bad_variant_access)
    as HrefA.
  { unfold getMemberRef. rewrite Hfield.
    apply (std_get_other _ _ a); [done|congruence]. }
  split; [done|]. unfold to_json_simple. rewrite Hget. simpl. split.
  - by rewrite HrefA.
  - unfold getMemberRef. rewrite Hfield. rewrite (std_get_held _ _ _ _ HB).
    simpl. by rewrite json_set_document.
Qed.

(** C9, as the code has it: a member that is a [std::shared_ptr] owning [v]
    is written exactly as a member that holds [v] itself is, and the
    conversion of [v] ends up under the member's key; on an empty
    [std::shared_ptr] the pointer is read through without a test, which has
    no defined outcome, for [to_json_simple] and, once the child is found in
    the source document, for [from_json_simple]. *)
Theorem to_json_simple_shared_ptr s T target source arg instance name
    (handle : option val) :
  get arg s = Normal name →
  instance !! member_sel arg = Some (SharedPtr handle) →
  match handle with
  | Some v =>
      to_json_simple s shared_ptr T target arg instance
      = to_json_simple s direct T target arg
          (<[member_sel arg := Value v]> instance) ∧
      (is_document target →
       to_json_simple s shared_ptr T target arg instance
       = Normal (JObj (<[name := adl_to_json T v]> (members_of target))))
  | None =>
      to_json_simple s shared_ptr T target arg instance = Undefined ∧
      (∀ j, members_of source !! name = Some j →
         from_json_simple s shared_ptr T source arg instance = Undefined)
  end.
Proof.
  intros Hget Hfield.
  unfold to_json_simple, from_json_simple, getMemberRef, getMemberRef_mut.
  rewrite Hget, Hfield. destruct handle as [v|]; simpl.
  - rewrite lookup_insert_eq. split; [done|].
    intros Hdoc. by rewrite json_set_document.
  - split; [done|]. intros j Hj. rewrite json_at_members. by rewrite Hj.
Qed.

End helpers.

(** ** The one-time initializer *)

Section initializer.
Context {policy : unordered_map_policy}.
Import MemberStorage Serializer.

Implicit Types (p : Process (StoredType := string)).
Implicit Types (members : list (MemberPtr * string)).

Lemma subscript_assign_length_absent arg a (value : string)
    (s : list (node (StoredType := string))) :
  entries_for arg s = 0 →
  length (subscript_assign {| address := a; pointee := Member_t_ctor arg |}
            value s) = S (length s).
Proof.
  intros H0. unfold subscript_assign.
  rewrite lookup_absent; [|by apply entries_for_0].
  by rewrite link_perm.
Qed.

(** What one run of a class's [InitMembers] does to a table that has no
    entry for the members it declares. *)
Lemma InitMembers_run members p :
  NoDup (Member_t_ctor ∘ fst <$> members) →
  Forall (λ m, entries_for m.1 (storage p) = 0) members →
  let p' := (InitMembers members p).1 in
  heap_top p' = (heap_top p + N.of_nat (length members))%N ∧
  once_flags p' = once_flags p ∧
  length (storage p') = length (storage p) + length members ∧
  (∀ arg, Member_t_ctor arg ∉ (Member_t_ctor ∘ fst <$> members) →
     entries arg (storage p') ≡ₚ entries arg (storage p)) ∧
  Forall (λ m, ∃ a,
     entries m.1 (storage p')
     = [ {| key := {| address := a; pointee := Member_t_ctor m.1 |};
            mapped := m.2 |} ]) members.
Proof.
  unfold InitMembers. cbn [fst].
  revert p. induction members as [|m members IH]; intros p Hnd Habs.
  - simpl. split_and!; [lia|done|lia|done|done].
  - cbn [foldl]. rewrite fmap_cons in Hnd.
    apply NoDup_cons in Hnd as [Hm Hnd].
    apply Forall_cons in Habs as [Hm0 Habs].
    set (p1 := SERIALIZER_ADD_MEMBER m.1 m.2 p).
    assert (∀ arg, Member_t_ctor arg ≠ Member_t_ctor m.1 →
              entries arg (storage p1) ≡ₚ entries arg (storage p)) as Hother.
    { intros arg Hne. subst p1. cbn [SERIALIZER_ADD_MEMBER registerMember snd
        storage]. apply subscript_assign_other. simpl. congruence. }
    assert (Forall (λ m', entries_for m'.1 (storage p1) = 0) members) as Habs1.
    { apply Forall_forall. intros m' Hm'. unfold entries_for.
      rewrite Hother.
      - by apply (proj1 (Forall_forall _ _) Habs).
      - intros Heq. apply Hm.
        change (Member_t_ctor m.1) with ((Member_t_ctor ∘ fst) m).
        cbn [compose]. rewrite <- Heq.
        apply (list_elem_of_fmap_2 (Member_t_ctor ∘ fst) _ _ Hm'). }
    destruct (IH p1 Hnd Habs1) as (Htop & Hflags & Hlen & Hrest & Hall).
    split_and!.
    + rewrite Htop. subst p1. cbn [SERIALIZER_ADD_MEMBER registerMember snd
        heap_top]. cbn [length]. lia.
    + by rewrite Hflags.
    + rewrite Hlen. subst p1. cbn [SERIALIZER_ADD_MEMBER registerMember snd
        storage]. rewrite (subscript_assign_length_absent _ _ _ _ Hm0).
      cbn [length]. lia.
    + intros arg Harg. rewrite fmap_cons in Harg.
      apply not_elem_of_cons in Harg as [Hne Harg].
      rewrite (Hrest arg Harg). by apply Hother.
    + apply Forall_cons. split; [|done].
      exists (heap_top p). apply Permutation_singleton_r.
      rewrite (Hrest m.1 Hm). subst p1.
      cbn [SERIALIZER_ADD_MEMBER registerMember snd storage].
      by rewrite (subscript_assign_absent _ _ _ _ Hm0).
Qed.

(** Once the flag of [T] is set, calls of [callInitMembers<T>] do nothing. *)
Lemma construct_flag_set n T init p :
  T ∈ once_flags p → construct n T init p = (p, Normal ()).
Proof.
  intros Hflag. induction n as [|n IH]; [done|].
  cbn [construct]. unfold callInitMembers, call_once.
  by rewrite decide_True.
Qed.

(** Whatever the routine, when the flag of [T] is not set and the routine
    returns, any positive number of calls runs it once: the process is the
    one that the routine leaves, with the flag set. *)
Lemma construct_runs_once n T init p :
  T ∉ once_flags p →
  (init p).2 = Normal () →
  (0 < n)%nat →
  construct n T init p
  = ({| heap_top := heap_top (init p).1; storage := storage (init p).1;
        once_flags := T :: once_flags (init p).1 |}, Normal ()).
Proof.
  intros Hflag Hret Hn. destruct n as [|n]; [lia|].
  cbn [construct]. unfold callInitMembers, call_once.
  rewrite decide_False by done.
  destruct (init p) as [p' o]. simpl in Hret. subst o.
  apply construct_flag_set. cbn [once_flags]. left.
Qed.

(** C6: from a process in which the flag of [T] is not set and the table has
    no entry for the members that the class declares (each once), any
    positive number of calls of [callInitMembers<T>] returns, and leaves the
    process that the first call alone leaves: [InitMembers] has run once
    (the table is the one of one run, one identity object was allocated per
    declared member), and every declared member has exactly one entry, under
    its name. *)
Theorem callInitMembers_runs_once T members p n :
  T ∉ once_flags p →
  NoDup (Member_t_ctor ∘ fst <$> members) →
  Forall (λ m, entries_for m.1 (storage p) = 0) members →
  0 < n →
  let run := construct n T (InitMembers members) p in
  run.2 = Normal () ∧
  run.1 = (callInitMembers T (InitMembers members) p).1 ∧
  T ∈ once_flags run.1 ∧
  storage run.1 = storage (InitMembers members p).1 ∧
  heap_top run.1 = (heap_top p + N.of_nat (length members))%N ∧
  length (storage run.1) = length (storage p) + length members ∧
  Forall (λ m, entries_for m.1 (storage run.1) = 1
               ∧ get m.1 (storage run.1) = Normal m.2) members.
Proof.
  intros Hflag Hnd Habs Hn.
  destruct (InitMembers_run members p Hnd Habs)
    as (Htop & _ & Hlen & _ & Hall).
  rewrite (construct_runs_once n T (InitMembers members) p Hflag eq_refl Hn).
  unfold callInitMembers, call_once. rewrite decide_False by done.
  assert (InitMembers members p = ((InitMembers members p).1, Normal ()))
    as Hinit by done.
  set (pf := (InitMembers members p).1) in *. rewrite Hinit.
  cbn [fst snd storage heap_top once_flags].
  split_and!; [done|done|left|done|done|done|].
  eapply Forall_impl; [exact Hall|]. intros m [a Hm]. cbn beta in Hm.
  rewrite get_entries. unfold entries_for. by rewrite Hm.
Qed.

End initializer.

(** ** Round trip *)

Section round_trip.
Context {policy : unordered_map_policy}.
Context {ty val : Type} `{EqDecision ty} {conv : adl_serializer ty val}.
Import MemberStorage Serializer.

Implicit Types (s : list (node (StoredType := string))).
Implicit Types (x y instance : gmap Z (field val)).
Implicit Types (f : field_op (ty := ty)) (fields : list (field_op (ty := ty))).
Implicit Types (M : member_type ty) (T : ty).

(** [getMemberRef] looks at the selected member only. *)
Lemma getMemberRef_ext T M arg x y :
  x !! member_sel arg = y !! member_sel arg →
  getMemberRef T M arg x = getMemberRef T M arg y.
Proof. intros Hxy. unfold getMemberRef. by rewrite Hxy. Qed.

Lemma resolves_ext f x y v :
  x !! member_sel (op_arg f) = y !! member_sel (op_arg f) →
  resolves f x v → resolves f y v.
Proof. unfold resolves. intros Hxy <-. symmetry. by apply getMemberRef_ext. Qed.

(** Writing a field that resolves puts its conversion under its key. *)
Lemma to_json_simple_resolved s f x v name j :
  get (op_arg f) s = Normal name →
  resolves f x v →
  is_document j →
  to_json_simple s (op_MemberType f) (op_TargetType f) j (op_arg f) x
  = Normal (JObj (<[name := adl_to_json (op_TargetType f) v]> (members_of j))).
Proof.
  intros Hget Hres Hdoc. unfold to_json_simple. rewrite Hget. simpl.
  unfold resolves in Hres. rewrite Hres. simpl.
  by rewrite json_set_document.
Qed.

(** Reading a field whose child is the conversion of the value in [x]
    makes the member of the receiver what it is in [x]. *)
Lemma from_json_simple_copies s f x y v w name doc :
  get (op_arg f) s = Normal name →
  members_of doc !! name = Some (adl_to_json (op_TargetType f) v) →
  lossless (op_TargetType f) v →
  resolves f x v →
  resolves f y w →
  ∃ fx, x !! member_sel (op_arg f) = Some fx ∧
    from_json_simple s (op_MemberType f) (op_TargetType f) doc (op_arg f) y
    = Normal (<[member_sel (op_arg f) := fx]> y).
Proof.
  intros Hget Hdoc Hloss Hx Hy.
  unfold from_json_simple. rewrite Hget. simpl.
  rewrite json_at_members, Hdoc. simpl.
  unfold resolves, getMemberRef in Hx, Hy. unfold getMemberRef_mut.
  destruct (x !! member_sel (op_arg f)) as [fx|]; [|done].
  destruct (y !! member_sel (op_arg f)) as [fy|]; [|done].
  exists fx. split; [done|].
  unfold get_to, lossless in *.
  destruct (op_MemberType f) as [|alts|]; cbn in Hx, Hy |- *.
  - destruct fx as [vx| |]; [|done..]. destruct fy as [vy| |]; [|done..].
    injection Hx as ->. simpl. by rewrite Hloss.
  - destruct fx as [|ix vx|]; [done| |done].
    destruct fy as [|iy vy|]; [done| |done].
    unfold std_get in *.
    destruct (positions (op_TargetType f) alts 0) as [|i [|]]; [done| |done].
    destruct (decide (ix = i)) as [->|]; [|done].
    destruct (decide (iy = i)) as [->|]; [|done].
    injection Hx as ->. simpl. by rewrite Hloss.
  - destruct fx as [| |[vx|]]; [done..| |done].
    destruct fy as [| |[vy|]]; [done..| |done].
    injection Hx as ->. simpl. by rewrite Hloss.
Qed.

(** The document that [to_json] makes: the fields under their keys, the
    other children of the target as they were. *)
Lemma to_json_fields s x fields names j :
  Forall2 (λ f name, get (op_arg f) s = Normal name) fields names →
  NoDup names →
  Forall (λ f, ∃ v, resolves f x v) fields →
  is_document j →
  ∃ doc, to_json s fields x j = Normal doc ∧ is_document doc ∧
    (∀ k, k ∉ names → members_of doc !! k = members_of j !! k) ∧
    Forall2 (λ f name, ∃ v, resolves f x v ∧
               members_of doc !! name
               = Some (adl_to_json (op_TargetType f) v))
      fields names.
Proof.
  intros Hnames. revert j.
  induction Hnames as [|f name fields names Hget Hnames IH];
    intros j Hnd Hres Hdoc.
  - exists j. split_and!; done.
  - apply NoDup_cons in Hnd as [Hname Hnd].
    apply Forall_cons in Hres as [[v Hv] Hres].
    cbn [to_json]. rewrite (to_json_simple_resolved _ _ _ _ _ _ Hget Hv Hdoc).
    simpl.
    destruct (IH (JObj (<[name := adl_to_json (op_TargetType f) v]>
                          (members_of j))) Hnd Hres I)
      as (doc & Hm & Hisdoc & Hrest & Hall).
    exists doc. split_and!; [done|done| |].
    + intros k Hk. apply not_elem_of_cons in Hk as [Hne Hk].
      rewrite (Hrest k Hk). simpl. by rewrite lookup_insert_ne.
    + constructor; [|done]. exists v. split; [done|].
      rewrite (Hrest name Hname). simpl. by rewrite lookup_insert_eq.
Qed.

(** The object that [from_json] makes of the receiver [y] when every field
    finds the conversion of its value in [x] under its key: the selected
    members are those of [x], the others those of [y]. *)
Lemma from_json_fields s x doc fields y :
  Forall (λ f, ∃ name v,
     get (op_arg f) s = Normal name ∧ resolves f x v ∧
     members_of doc !! name = Some (adl_to_json (op_TargetType f) v) ∧
     lossless (op_TargetType f) v) fields →
  Forall (λ f, ∃ w, resolves f y w) fields →
  ∃ y', from_json s fields doc y = Normal y' ∧
    ∀ k, y' !! k = if decide (k ∈ selected fields) then x !! k else y !! k.
Proof.
  revert y. induction fields as [|f fields IH]; intros y Hx Hy.
  - exists y. split; [done|]. intros k. rewrite decide_False; [done|].
    apply not_elem_of_nil.
  - apply Forall_cons in Hx as [(name & v & Hget & Hv & Hdoc & Hloss) Hx].
    apply Forall_cons in Hy as [[w Hw] Hy].
    destruct (from_json_simple_copies _ _ _ _ _ _ _ _ Hget Hdoc Hloss Hv Hw)
      as (fx & Hfx & Hread).
    cbn [from_json]. rewrite Hread. simpl.
    set (y1 := <[member_sel (op_arg f) := fx]> y).
    assert (Forall (λ f', ∃ w', resolves f' y1 w') fields) as Hy1.
    { apply Forall_forall. intros f' Hf'.
      destruct (decide (member_sel (op_arg f') = member_sel (op_arg f)))
        as [Heq|Hne].
      - destruct (proj1 (Forall_forall _ _) Hx f' Hf')
          as (_ & v' & _ & Hv' & _).
        exists v'. apply (resolves_ext _ x); [|done].
        subst y1. rewrite Heq, lookup_insert_eq. done.
      - destruct (proj1 (Forall_forall _ _) Hy f' Hf') as [w' Hw'].
        exists w'. apply (resolves_ext _ y); [|done].
        subst y1. by rewrite lookup_insert_ne. }
    destruct (IH y1 Hx Hy1) as (y' & Hy' & Hlook).
    exists y'. split; [done|]. intros k. rewrite Hlook.
    change (selected (f :: fields))
      with (member_sel (op_arg f) :: selected fields).
    destruct (decide (k ∈ selected fields)) as [Hin|Hnin].
    + rewrite decide_True; [done|]. by right.
    + subst y1. destruct (decide (k = member_sel (op_arg f))) as [->|Hne].
      * rewrite decide_True by left. by rewrite lookup_insert_eq.
      * rewrite decide_False.
        -- by rewrite lookup_insert_ne.
        -- intros Hk. apply elem_of_cons in Hk as [?|?]; done.
Qed.

Lemma fields_find_their_values s x doc fields names :
  Forall2 (λ f name, get (op_arg f) s = Normal name) fields names →
  Forall2 (λ f name, ∃ v, resolves f x v ∧
             members_of doc !! name = Some (adl_to_json (op_TargetType f) v))
    fields names →
  Forall (λ f, ∃ v, resolves f x v ∧ lossless (op_TargetType f) v) fields →
  Forall (λ f, ∃ name v,
     get (op_arg f) s = Normal name ∧ resolves f x v ∧
     members_of doc !! name = Some (adl_to_json (op_TargetType f) v) ∧
     lossless (op_TargetType f) v) fields.
Proof.
  intros Hnames. induction Hnames as [|f name fields names Hget Hnames IH];
    intros Hdoc Hloss; [done|].
  apply Forall2_cons in Hdoc as [(v & Hv & Hchild) Hdoc].
  apply Forall_cons in Hloss as [(v' & Hv' & Hloss') Hloss].
  constructor; [|by apply IH].
  exists name, v. split_and!; [done..|].
  unfold resolves in Hv, Hv'. rewrite Hv in Hv'. by injection Hv' as <-.
Qed.

(** C1, as the code has it: [from_json] assigns through the members the
    receiver already has; it neither makes a variant hold another
    alternative nor gives an empty [std::shared_ptr] something to own.  So
    the round trip needs a valid receiver besides a valid source: for a
    class whose fields all have an entry in the table, under pairwise
    different keys, an object [x] that holds valid values (every field
    resolves, to a value that the document conversions give back) and a
    receiving object [y] whose fields resolve too (every variant member
    already holds the alternative that the class serializes, every
    [std::shared_ptr] member owns a value of its own, as [SharedPtr] has
    it), [from_json] on the document that [to_json] makes of [x] returns,
    and makes every field of the receiver what it is in [x]; the members
    that are no fields stay as they were, so the receiver becomes [x] when
    they agreed on those before. *)
Theorem from_json_to_json_round_trip s fields names x y j0 :
  Forall2 (λ f name, get (op_arg f) s = Normal name) fields names →
  NoDup names →
  Forall (λ f, ∃ v, resolves f x v ∧ lossless (op_TargetType f) v) fields →
  Forall (λ f, ∃ w, resolves f y w) fields →
  is_document j0 →
  ∃ doc y',
    to_json s fields x j0 = Normal doc ∧
    from_json s fields doc y = Normal y' ∧
    Forall (λ f, y' !! member_sel (op_arg f) = x !! member_sel (op_arg f))
      fields ∧
    (∀ k, k ∉ selected fields → y' !! k = y !! k) ∧
    ((∀ k, k ∉ selected fields → x !! k = y !! k) → y' = x).
Proof.
  intros Hnames Hnd Hx Hy Hj0.
  assert (Forall (λ f, ∃ v, resolves f x v) fields) as Hx'.
  { eapply Forall_impl; [exact Hx|]. intros f (v & Hv & _). by exists v. }
  destruct (to_json_fields s x fields names j0 Hnames Hnd Hx' Hj0)
    as (doc & Hdoc & _ & _ & Hchildren).
  pose proof (fields_find_their_values s x doc fields names Hnames Hchildren Hx)
    as Hfind.
  destruct (from_json_fields s x doc fields y Hfind Hy) as (y' & Hy' & Hlook).
  exists doc, y'. split_and!; [done|done| | |].
  - apply Forall_forall. intros f Hf. rewrite Hlook.
    rewrite decide_True; [done|].
    apply (list_elem_of_fmap_2 (λ f, member_sel (op_arg f)) _ _ Hf).
  - intros k Hk. rewrite Hlook. by rewrite decide_False.
  - intros Hrest. apply map_eq. intros k. rewrite Hlook.
    case_decide; [done|]. symmetry. by apply Hrest.
Qed.

End round_trip.

(** ** The two classes *)

Section demo.
Import MemberStorage Serializer Demo.

(** The end-to-end example: [Point{3,4}] and the document
    [{"x":3,"y":4}], and the document [{"x":3}] read into a default
    [Point]. *)
Example Point_to_json :
  to_json (storage Point_process) Point_fields (point 3 4) JNull
  = Normal (JObj {[ "x" := JInt 3; "y" := JInt 4 ]}).
Proof. reflexivity. Qed.

Example Point_from_json :
  from_json (storage Point_process) Point_fields
    (JObj {[ "x" := JInt 3; "y" := JInt 4 ]}) (point 0 0)
  = Normal (point 3 4).
Proof. reflexivity. Qed.

Example Point_from_json_partial :
  from_json (storage Point_process) Point_fields
    (JObj {[ "x" := JInt 3 ]}) (point 0 0)
  = Normal (point 3 0).
Proof. reflexivity. Qed.

(** A [Shape] whose [tag] holds the [std::string] alternative and whose
    [weight] owns a number, read back into a [Shape] in the same state; and
    read back into a [Shape] whose [tag] holds the [int] alternative, which
    keeps its [tag]. *)
Example Shape_round_trip :
  let x := shape (1, Vstring "sq") (Some 5%Z) true in
  let y := shape (1, Vstring "") (Some 0%Z) false in
  to_json (storage Shape_process) Shape_fields x JNull
  = Normal (JObj {[ "tag" := JStr "sq"; "weight" := JInt 5;
                    "visible" := JBool true ]}) ∧
  from_json (storage Shape_process) Shape_fields
    (JObj {[ "tag" := JStr "sq"; "weight" := JInt 5;
             "visible" := JBool true ]}) y
  = Normal x.
Proof. split; reflexivity. Qed.

Example Shape_from_json_other_alternative :
  from_json (storage Shape_process) Shape_fields
    (JObj {[ "tag" := JStr "sq"; "weight" := JInt 5;
             "visible" := JBool true ]})
    (shape (0, Vint 0) (Some 0%Z) false)
  = Normal (shape (0, Vint 0) (Some 5%Z) true).
Proof. reflexivity. Qed.

(** C1, refuted: the [Shape] [x] holds valid values and all its fields are
    registered, but [from_json] on the document that [to_json] makes of it
    does not reproduce it in a default [Shape] (the [tag] holds the first
    alternative, the [weight] is empty), where the evaluation has no defined
    outcome, nor in a [Shape] whose [weight] owns a number but whose [tag]
    holds the first alternative, which keeps its [tag]. *)
Lemma from_json_to_json_default_receiver :
  let s := storage Shape_process in
  let x := shape (1, Vstring "sq") (Some 5%Z) true in
  let doc := JObj {[ "tag" := JStr "sq"; "weight" := JInt 5;
                     "visible" := JBool true ]} in
  Forall2 (λ f name, get (op_arg f) s = Normal name)
    Shape_fields ["tag"; "weight"; "visible"] ∧
  NoDup ["tag"; "weight"; "visible"] ∧
  Forall (λ f, ∃ v, resolves f x v ∧ lossless (op_TargetType f) v)
    Shape_fields ∧
  to_json s Shape_fields x JNull = Normal doc ∧
  from_json s Shape_fields doc (shape (0, Vint 0) None false) = Undefined ∧
  ∃ y', from_json s Shape_fields doc (shape (0, Vint 0) (Some 0%Z) false)
        = Normal y' ∧
    y' !! member_sel Shape_tag ≠ x !! member_sel Shape_tag.
Proof.
  intros s x doc. split_and!.
  - repeat constructor.
  - apply (bool_decide_unpack _). vm_compute. exact I.
  - repeat constructor.
    + exists (Vstring "sq"). split; reflexivity.
    + exists (Vint 5). split; reflexivity.
    + exists (Vbool true). split; reflexivity.
  - reflexivity.
  - reflexivity.
  - exists (shape (0, Vint 0) (Some 5%Z) true). split; [reflexivity|].
    discriminate.
Qed.

(** C1 as the code has it, at a [Shape] whose [tag] holds the
    [std::string] alternative and whose [weight] owns a number, read into a
    [Shape] in the same state. *)
Lemma from_json_to_json_round_trip_Shape :
  let s := storage Shape_process in
  let x := shape (1, Vstring "sq") (Some 5%Z) true in
  let y := shape (1, Vstring "") (Some 0%Z) false in
  (Forall2 (λ f name, get (op_arg f) s = Normal name)
     Shape_fields ["tag"; "weight"; "visible"] ∧
   NoDup ["tag"; "weight"; "visible"] ∧
   Forall (λ f, ∃ v, resolves f x v ∧ lossless (op_TargetType f) v)
     Shape_fields ∧
   Forall (λ f, ∃ w, resolves f y w) Shape_fields ∧
   is_document JNull) ∧
  ∃ doc y',
    to_json s Shape_fields x JNull = Normal doc ∧
    from_json s Shape_fields doc y = Normal y' ∧
    Forall (λ f, y' !! member_sel (op_arg f) = x !! member_sel (op_arg f))
      Shape_fields ∧
    (∀ k, k ∉ selected Shape_fields → y' !! k = y !! k) ∧
    ((∀ k, k ∉ selected Shape_fields → x !! k = y !! k) → y' = x).
Proof.
  intros s x y.
  assert (Forall2 (λ f name, get (op_arg f) s = Normal name)
            Shape_fields ["tag"; "weight"; "visible"]) as H1.
  { repeat constructor. }
  assert (NoDup ["tag"; "weight"; "visible"]) as H2.
  { apply (bool_decide_unpack _). vm_compute. exact I. }
  assert (Forall (λ f, ∃ v, resolves f x v ∧ lossless (op_TargetType f) v)
            Shape_fields) as H3.
  { repeat constructor.
    - exists (Vstring "sq"). split; reflexivity.
    - exists (Vint 5). split; reflexivity.
    - exists (Vbool true). split; reflexivity. }
  assert (Forall (λ f, ∃ w, resolves f y w) Shape_fields) as H4.
  { repeat constructor.
    - exists (Vstring ""). reflexivity.
    - exists (Vint 0). reflexivity.
    - exists (Vbool false). reflexivity. }
  split; [split_and!; [exact H1|exact H2|exact H3|exact H4|exact I]|].
  exact (from_json_to_json_round_trip s Shape_fields
           ["tag"; "weight"; "visible"] x y JNull H1 H2 H3 H4 I).
Defined.

(** C2 at the table of [Point]: a member of [Shape] has no entry, the
    member [y] of [Point] has one. *)
Lemma get_registered_or_throws_Point :
  (entries_for Shape_tag (storage Point_process) = 0 ∧
   get Shape_tag (storage Point_process)
   = Throw (runtime_error "No storage for 5Shape St7variantIJiSsEE")) ∧
  (entries_for Point_y (storage Point_process) ≠ 0 ∧
   Forall (λ n, mapped n = "y") (entries Point_y (storage Point_process)) ∧
   get Point_y (storage Point_process) = Normal "y").
Proof.
  assert (entries_for Shape_tag (storage Point_process) = 0) as H0
    by reflexivity.
  assert (entries_for Point_y (storage Point_process) ≠ 0) as H1
    by (vm_compute; discriminate).
  assert (Forall (λ n, mapped n = "y")
            (entries Point_y (storage Point_process))) as H2
    by (vm_compute; repeat constructor).
  split.
  - split; [exact H0|].
    exact (proj1 (get_registered_or_throws Shape_tag (storage Point_process))
             H0).
  - split_and!; [exact H1|exact H2|].
    exact (proj2 (proj2 (get_registered_or_throws Point_y
                           (storage Point_process))) "y" H1 H2).
Defined.

(** C3, refuted: on an empty table, [to_json_simple] for the member [x] of
    [Point] returns to its caller, with the target as it was; nothing
    reaches the caller. *)
Lemma to_json_simple_unregistered_returns :
  entries_for (StoredType := string) Point_x [] = 0 ∧
  to_json_simple [] direct Tint JNull Point_x (point 3 4) = Normal JNull ∧
  ¬ throws (to_json_simple [] direct Tint JNull Point_x (point 3 4)).
Proof.
  split_and!; [reflexivity|reflexivity|]. intros [e He]. discriminate He.
Qed.

(** C3 as the code has it, on the table of [Shape] and a member of
    [Point]. *)
Lemma to_json_simple_swallows_unregistered_Shape :
  entries_for Point_x (storage Shape_process) = 0 ∧
  get Point_x (storage Shape_process)
  = Throw (runtime_error "No storage for 5Point i") ∧
  to_json_simple (storage Shape_process) direct Tint
    (JObj {[ "tag" := JStr "sq" ]}) Point_x (point 3 4)
  = Normal (JObj {[ "tag" := JStr "sq" ]}).
Proof.
  assert (entries_for Point_x (storage Shape_process) = 0) as H0
    by reflexivity.
  split; [exact H0|].
  exact (to_json_simple_swallows_unregistered (storage Shape_process) direct
           Tint (JObj {[ "tag" := JStr "sq" ]}) Point_x (point 3 4) H0).
Defined.

(** C4, refuted: the member [x] of [Point] has an entry, and a second
    [registerMember] for it answers [true], changes the table and leaves
    two entries for the one member. *)
Lemma registerMember_twice :
  let p1 := (registerMember Point_x "x" startup).2 in
  let r := registerMember Point_x "x" p1 in
  entries_for Point_x (storage p1) = 1 ∧
  r.1 = true ∧
  storage r.2 ≠ storage p1 ∧
  ¬ (entries_for Point_x (storage r.2) ≤ 1)%nat.
Proof.
  split_and!; [reflexivity|reflexivity|discriminate|].
  change (¬ (2 ≤ 1)%nat). lia.
Qed.

(** C4 as the code has it, at the first registration of [x] and with the
    member [y] as the other member. *)
Lemma registerMember_answers_true_Point :
  (registerMember Point_x "x" startup).1 = true ∧
  (entries_for Point_x (storage (startup (StoredType := string))) = 0 ∧
   entries_for Point_x (storage (registerMember Point_x "x" startup).2) = 1 ∧
   get Point_x (storage (registerMember Point_x "x" startup).2) = Normal "x") ∧
  (Member_t_ctor Point_y ≠ Member_t_ctor Point_x ∧
   entries_for Point_y (storage (registerMember Point_x "x" startup).2)
   = entries_for Point_y (storage (startup (StoredType := string)))).
Proof.
  destruct (registerMember_answers_true Point_x "x" startup)
    as (Htrue & Hnew & Hother).
  assert (entries_for Point_x (storage (startup (StoredType := string))) = 0)
    as H0 by reflexivity.
  assert (Member_t_ctor Point_y ≠ Member_t_ctor Point_x) as Hne
    by discriminate.
  split_and!;
    [exact Htrue|exact H0|exact (proj1 (Hnew H0))|exact (proj2 (Hnew H0))
    |exact Hne|exact (Hother Point_y Hne)].
Defined.

(** C5 at the two identity objects that two registrations of the member
    [x] of [Point] leave in the table: equal, with different hash codes. *)
Example MemberHasher_of_two_registrations :
  let p2 := (registerMember Point_x "x"
               (registerMember Point_x "x" startup).2).2 in
  ∃ k1 k2, key <$> storage p2 = [k2; k1] ∧
    MemberEqual k1 k2 = true ∧ MemberHasher k1 = 1%N ∧ MemberHasher k2 = 2%N.
Proof. do 2 eexists. split_and!; reflexivity. Qed.

(** C6 at three constructions of a [Point] in a fresh process. *)
Lemma callInitMembers_runs_once_Point :
  ((typeid_Point ∉ once_flags (startup (StoredType := string))) ∧
   NoDup (Member_t_ctor ∘ fst <$> Point_members) ∧
   Forall (λ m, entries_for m.1 (storage (startup (StoredType := string))) = 0)
     Point_members ∧
   (0 < 3)%nat) ∧
  (let run := construct 3 typeid_Point (InitMembers Point_members) startup in
  run.2 = Normal () ∧
  run.1 = (callInitMembers typeid_Point (InitMembers Point_members) startup).1 ∧
  typeid_Point ∈ once_flags run.1 ∧
  storage run.1 = storage (InitMembers Point_members startup).1 ∧
  heap_top run.1
  = (heap_top (startup (StoredType := string))
     + N.of_nat (length Point_members))%N ∧
  length (storage run.1)
  = length (storage (startup (StoredType := string))) + length Point_members ∧
  Forall (λ m, entries_for m.1 (storage run.1) = 1
               ∧ get m.1 (storage run.1) = Normal m.2) Point_members).
Proof.
  assert (typeid_Point ∉ once_flags (startup (StoredType := string))) as H1
    by apply not_elem_of_nil.
  assert (NoDup (Member_t_ctor ∘ fst <$> Point_members)) as H2.
  { apply (bool_decide_unpack _). vm_compute. exact I. }
  assert (Forall (λ m,
            entries_for m.1 (storage (startup (StoredType := string))) = 0)
            Point_members) as H3 by repeat constructor.
  assert (0 < 3)%nat as H4 by lia.
  split; [split_and!; [exact H1|exact H2|exact H3|exact H4]|].
  exact (callInitMembers_runs_once typeid_Point Point_members startup 3
           H1 H2 H3 H4).
Defined.


(** C8 at a [Shape] whose [tag] holds the [std::string] alternative. *)
Lemma to_json_simple_variant_Shape :
  let obj := shape (1, Vstring "sq") (Some 5%Z) true in
  (get Shape_tag (storage Shape_process) = Normal "tag" ∧
   obj !! member_sel Shape_tag = Some (VariantValue 1 (Vstring "sq")) ∧
   positions Tint tag_alternatives 0 = [0] ∧
   positions Tstring tag_alternatives 0 = [1] ∧
   0 ≠ 1 ∧
   is_document JNull) ∧
  getMemberRef Tint (variant tag_alternatives) Shape_tag obj
  = Throw bad_variant_access ∧
  to_json_simple (storage Shape_process) (variant tag_alternatives) Tint JNull
    Shape_tag obj = Normal JNull ∧
  to_json_simple (storage Shape_process) (variant tag_alternatives) Tstring
    JNull Shape_tag obj
  = Normal (JObj (<["tag" := adl_to_json Tstring (Vstring "sq")]>
                    (members_of JNull))).
Proof.
  intros obj.
  assert (get Shape_tag (storage Shape_process) = Normal "tag") as H1
    by reflexivity.
  assert (obj !! member_sel Shape_tag = Some (VariantValue 1 (Vstring "sq")))
    as H2 by reflexivity.
  assert (positions Tint tag_alternatives 0 = [0]) as H3 by reflexivity.
  assert (positions Tstring tag_alternatives 0 = [1]) as H4 by reflexivity.
  assert (0 ≠ 1) as H5 by lia.
  split; [split_and!; [exact H1|exact H2|exact H3|exact H4|exact H5|exact I]|].
  exact (to_json_simple_variant (storage Shape_process) tag_alternatives
           Tint Tstring 0 1 (Vstring "sq") JNull Shape_tag obj "tag"
           H1 H2 H3 H4 H5 I).
Defined.

(** C9, refuted: on a [Shape] whose [weight] is an empty [std::shared_ptr],
    neither helper ends in an exception; the evaluation has no defined
    outcome. *)
Lemma to_json_simple_empty_shared_ptr :
  let obj := shape (1, Vstring "sq") None true in
  let source := JObj {[ "weight" := JInt 5 ]} in
  obj !! member_sel Shape_weight = Some (SharedPtr None) ∧
  to_json_simple (storage Shape_process) shared_ptr Tint JNull Shape_weight obj
  = Undefined ∧
  from_json_simple (storage Shape_process) shared_ptr Tint source Shape_weight
    obj = Undefined ∧
  ¬ throws (getMemberRef Tint shared_ptr Shape_weight obj) ∧
  ¬ defined (to_json_simple (storage Shape_process) shared_ptr Tint JNull
               Shape_weight obj) ∧
  ¬ defined (from_json_simple (storage Shape_process) shared_ptr Tint source
               Shape_weight obj).
Proof.
  split_and!; [reflexivity|reflexivity|reflexivity| |exact id|exact id].
  intros [e He]. discriminate He.
Qed.

(** C9 as the code has it, at a [Shape] whose [weight] owns [5] and at one
    whose [weight] is empty. *)
Lemma to_json_simple_shared_ptr_Shape :
  let owning := shape (1, Vstring "sq") (Some 5%Z) true in
  let empty := shape (1, Vstring "sq") None true in
  let source := JObj {[ "weight" := JInt 5 ]} in
  get Shape_weight (storage Shape_process) = Normal "weight" ∧
  (owning !! member_sel Shape_weight = Some (SharedPtr (Some (Vint 5))) ∧
   to_json_simple (storage Shape_process) shared_ptr Tint JNull Shape_weight
     owning
   = to_json_simple (storage Shape_process) direct Tint JNull Shape_weight
       (<[member_sel Shape_weight := Value (Vint 5)]> owning) ∧
   is_document JNull ∧
   to_json_simple (storage Shape_process) shared_ptr Tint JNull Shape_weight
     owning
   = Normal (JObj (<["weight" := adl_to_json Tint (Vint 5)]>
                     (members_of JNull)))) ∧
  (empty !! member_sel Shape_weight = Some (SharedPtr None) ∧
   to_json_simple (storage Shape_process) shared_ptr Tint JNull Shape_weight
     empty = Undefined ∧
   members_of source !! "weight" = Some (JInt 5) ∧
   from_json_simple (storage Shape_process) shared_ptr Tint source
     Shape_weight empty = Undefined).
Proof.
  intros owning empty source.
  assert (get Shape_weight (storage Shape_process) = Normal "weight") as Hget
    by reflexivity.
  assert (owning !! member_sel Shape_weight = Some (SharedPtr (Some (Vint 5))))
    as H1 by reflexivity.
  assert (empty !! member_sel Shape_weight = Some (SharedPtr None)) as H2
    by reflexivity.
  assert (members_of source !! "weight" = Some (JInt 5)) as H3 by reflexivity.
  pose proof (to_json_simple_shared_ptr (storage Shape_process) Tint JNull
                source Shape_weight owning "weight" (Some (Vint 5)) Hget H1)
    as [Hsame Hdoc].
  pose proof (to_json_simple_shared_ptr (storage Shape_process) Tint JNull
                source Shape_weight empty "weight" None Hget H2)
    as [Hwrite Hread].
  split_and!;
    [exact Hget|exact H1|exact Hsame|exact I|exact (Hdoc I)
    |exact H2|exact Hwrite|exact H3|exact (Hread (JInt 5) H3)].
Defined.

(** C10 at the table of [Point]: a member without entry, a document
    without the key, and a document with it. *)
Lemma get_json_for_property_returns_Point :
  let s := storage Point_process in
  let source := JObj {[ "x" := JObj {[ "unit" := JStr "mm" ]} ]} in
  (∃ j, get_json_for_property s source Point_x = Normal j) ∧
  (entries_for Shape_tag s = 0 ∧
   get_json_for_property s source Shape_tag = Normal JNull) ∧
  (get Point_y s = Normal "y" ∧ members_of source !! "y" = None ∧
   get_json_for_property s source Point_y = Normal JNull) ∧
  (get Point_x s = Normal "x" ∧
   members_of source !! "x" = Some (JObj {[ "unit" := JStr "mm" ]}) ∧
   get_json_for_property s source Point_x
   = Normal (JObj {[ "unit" := JStr "mm" ]})).
Proof.
  intros s source.
  assert (entries_for Shape_tag s = 0) as H0 by reflexivity.
  assert (get Point_y s = Normal "y") as Hy by reflexivity.
  assert (members_of source !! "y" = None) as Hnone by reflexivity.
  assert (get Point_x s = Normal "x") as Hx by reflexivity.
  assert (members_of source !! "x" = Some (JObj {[ "unit" := JStr "mm" ]}))
    as Hsome by reflexivity.
  split_and!;
    [|exact H0| |exact Hy|exact Hnone| |exact Hx|exact Hsome|].
  - exact (proj1 (get_json_for_property_returns s source Point_x)).
  - exact (proj1 (proj2 (get_json_for_property_returns s source Shape_tag))
             H0).
  - exact (proj1 (proj2 (proj2
             (get_json_for_property_returns s source Point_y))) "y" Hy Hnone).
  - exact (proj2 (proj2 (proj2
             (get_json_for_property_returns s source Point_x))) "x" _ Hx
             Hsome).
Defined.

End demo.

(** * Further properties of the registry *)

Local Open Scope nat_scope.

Lemma find_index_None {A} (p : A → bool) (l : list A) :
  (∀ x, x ∈ l → p x = false) → find_index p l = None.
Proof.
  induction l as [|x l IH]; intros Hl; [done|].
  cbn [find_index]. rewrite (Hl x) by left.
  rewrite IH; [done|]. intros y Hy. apply Hl. by right.
Qed.

Section registry_more.
Context {policy : unordered_map_policy}.
Context {StoredType : Type}.
Import MemberStorage.

Implicit Types (s : list (node (StoredType := StoredType))).
Implicit Types (p : Process (StoredType := StoredType)).
Implicit Types (arg : MemberPtr) (k : MemberTypeBase_ptr).

(** An assignment to a mapped value changes no key. *)
Lemma keys_alter (value : StoredType) i s :
  key <$> alter (λ n, {| key := key n; mapped := value |}) i s = key <$> s.
Proof.
  rewrite (list_fmap_alter key _ id); [|by apply Forall_true].
  by apply list_alter_id.
Qed.

(** The keys after [storage[k] = value]: those before, and [k] when the
    table found no node for it. *)
Lemma keys_subscript_assign k (value : StoredType) s :
  key <$> subscript_assign k value s ≡ₚ key <$> s ∨
  (lookup node_hash (node_equal k) (MemberHasher k) s = None ∧
   key <$> subscript_assign k value s ≡ₚ k :: (key <$> s)).
Proof.
  unfold subscript_assign.
  destruct (lookup _ _ _ s) as [i|] eqn:Hi.
  - left. by rewrite keys_alter.
  - right. split; [done|]. by rewrite link_perm.
Qed.

Lemma entries_for_keys arg s s' :
  key <$> s ≡ₚ key <$> s' → entries_for arg s = entries_for arg s'.
Proof.
  intros Hk. unfold entries_for, entries.
  assert (∀ l : list (node (StoredType := StoredType)),
            length (filter (λ n, pointee (key n) = Member_t_ctor arg) l)
            = length (filter (λ k, pointee k = Member_t_ctor arg) (key <$> l)))
    as Hlen.
  { intros l. induction l as [|n l IH]; [done|].
    rewrite fmap_cons, !filter_cons.
    destruct (decide (pointee (key n) = Member_t_ctor arg)); simpl;
      by rewrite IH. }
  rewrite !Hlen. by rewrite Hk.
Qed.

(** [storage[k] = value] keeps the nodes of every member, and adds at most
    one node. *)
Lemma entries_for_subscript_assign arg k (value : StoredType) s :
  entries_for arg s ≤ entries_for arg (subscript_assign k value s)
  ∧ entries_for arg (subscript_assign k value s) ≤ S (entries_for arg s).
Proof.
  unfold subscript_assign.
  destruct (lookup _ _ _ s) as [i|] eqn:Hi.
  - rewrite entries_for_alter. lia.
  - unfold entries_for. rewrite entries_link. unfold entries.
    rewrite filter_cons. case_decide; simpl; lia.
Qed.

Lemma length_subscript_assign k (value : StoredType) s :
  length s ≤ length (subscript_assign k value s)
  ∧ length (subscript_assign k value s) ≤ S (length s).
Proof.
  unfold subscript_assign.
  destruct (lookup _ _ _ s) as [i|] eqn:Hi.
  - rewrite length_alter. lia.
  - rewrite link_perm. simpl. lia.
Qed.

Lemma get_returns_iff arg s : returns (get arg s) ↔ entries_for arg s ≠ 0.
Proof.
  rewrite get_entries. unfold entries_for, returns.
  destruct (entries arg s); simpl; split; try done.
  - intros [a Ha]. done.
  - intros _. by eexists.
Qed.

(** [registerMember] keeps a well-formed process well formed. *)
Lemma registerMember_well_formed arg (value : StoredType) p :
  well_formed p → well_formed (registerMember arg value p).2.
Proof.
  intros [Hlt Hnd]. unfold well_formed.
  cbn [registerMember snd heap_top storage].
  set (k := {| address := heap_top p; pointee := Member_t_ctor arg |}).
  assert (Forall (λ a, (a < heap_top p)%N) (address <$> (key <$> storage p)))
    as Hlt'.
  { rewrite <- list_fmap_compose. by apply Forall_fmap. }
  assert (NoDup (address <$> (key <$> storage p))) as Hnd'.
  { by rewrite <- list_fmap_compose. }
  assert (∀ s : list (node (StoredType := StoredType)),
            (λ n, address (key n)) <$> s = address <$> (key <$> s)) as Hcomp.
  { intros s. by rewrite <- list_fmap_compose. }
  assert (∀ (s : list (node (StoredType := StoredType))) top,
            Forall (λ n, (address (key n) < top)%N) s
            ↔ Forall (λ a, (a < top)%N) (address <$> (key <$> s))) as Hall.
  { intros s top. rewrite <- list_fmap_compose. by rewrite Forall_fmap. }
  rewrite Hall, Hcomp.
  destruct (keys_subscript_assign k value (storage p)) as [Hk|[_ Hk]];
    rewrite Hk.
  - split; [|done]. eapply Forall_impl; [exact Hlt'|].
    intros a Ha. simpl in *. lia.
  - rewrite fmap_cons. split.
    + apply Forall_cons. split; [subst k; simpl; lia|].
      eapply Forall_impl; [exact Hlt'|]. intros a Ha. simpl in *. lia.
    + apply NoDup_cons. split; [|done]. subst k. simpl. intros Hin.
      pose proof (proj1 (Forall_forall _ _) Hlt' _ Hin) as Hlt''.
      simpl in Hlt''. lia.
Qed.

(** X1: the equality predicate of the table is an equivalence relation on
    identity objects, and it holds exactly when the two objects carry the
    same class hash code and the same member. *)
Theorem MemberEqual_equivalence k1 k2 k3 :
  MemberEqual k1 k1 = true ∧
  MemberEqual k1 k2 = MemberEqual k2 k1 ∧
  (MemberEqual k1 k2 = true → MemberEqual k2 k3 = true →
   MemberEqual k1 k3 = true) ∧
  (MemberEqual k1 k2 = true ↔
   class_hash (pointee k1) = class_hash (pointee k2)
   ∧ member (pointee k1) = member (pointee k2)).
Proof.
  split_and!.
  - by apply MemberEqual_eq.
  - apply Bool.eq_iff_eq_true. rewrite !MemberEqual_eq. naive_solver.
  - rewrite !MemberEqual_eq. congruence.
  - rewrite MemberEqual_eq.
    destruct (pointee k1) as [h1 m1], (pointee k2) as [h2 m2]; simpl.
    split; [by intros [= -> ->]|by intros [-> ->]].
Qed.

(** X2: [registerMember] keeps the table well formed, under every policy of
    the hash table: the keys stay at pairwise different addresses below the
    allocation pointer; and the identity object that the call allocates has
    a hash code that no key of the table has. *)
Theorem registerMember_keeps_well_formed arg (value : StoredType) p :
  well_formed p →
  well_formed (registerMember arg value p).2 ∧
  Forall (λ n, MemberHasher (key n) ≠ heap_top p) (storage p).
Proof.
  intros Hwf. split; [by apply registerMember_well_formed|].
  destruct Hwf as [Hlt _]. eapply Forall_impl; [exact Hlt|].
  intros n Hn. unfold MemberHasher. simpl in Hn. lia.
Qed.

(** X3: [registerMember] never takes a registration away, under every
    policy of the hash table: every member keeps its entries and gains at
    most one, the table grows by at most one node, and a lookup that
    returned before the call returns after it. *)
Theorem registerMember_never_unregisters arg arg' (value : StoredType) p :
  let p' := (registerMember arg value p).2 in
  entries_for arg' (storage p) ≤ entries_for arg' (storage p') ∧
  entries_for arg' (storage p') ≤ S (entries_for arg' (storage p)) ∧
  length (storage p) ≤ length (storage p') ∧
  length (storage p') ≤ S (length (storage p)) ∧
  entries_for arg (storage p') ≠ 0 ∧
  (returns (get arg' (storage p)) → returns (get arg' (storage p'))).
Proof.
  cbn zeta. cbn [registerMember snd storage].
  set (k := {| address := heap_top p; pointee := Member_t_ctor arg |}).
  pose proof (entries_for_subscript_assign arg' k value (storage p))
    as [Hle1 Hle2].
  pose proof (length_subscript_assign k value (storage p)) as [Hl1 Hl2].
  split_and!; [done..| |].
  - unfold subscript_assign.
    destruct (lookup _ _ _ (storage p)) as [i|] eqn:Hi.
    + rewrite entries_for_alter.
      apply lookup_found in Hi as (n & Hn & Heq).
      apply list_elem_of_lookup_2 in Hn.
      intros H0. apply (proj1 (entries_for_0 _ _) H0 n); [done|].
      by rewrite Heq.
    + unfold entries_for. rewrite entries_link. unfold entries.
      by rewrite filter_cons_True.
  - rewrite !get_returns_iff. lia.
Qed.

(** X4: registering a member does not change what [get] answers for
    another member that has at most one entry: the answer, a value or the
    exception, is the same before and after. *)
Theorem registerMember_get_other arg arg' (value : StoredType) p :
  Member_t_ctor arg' ≠ Member_t_ctor arg →
  entries_for arg' (storage p) ≤ 1 →
  get arg' (storage (registerMember arg value p).2) = get arg' (storage p).
Proof.
  intros Hne Hle. cbn [registerMember snd storage].
  rewrite !get_entries.
  pose proof (subscript_assign_other arg'
                {| address := heap_top p; pointee := Member_t_ctor arg |}
                value (storage p)) as Hperm.
  unfold entries_for in Hle.
  destruct (entries arg' (storage p)) as [|n [|n' l]] eqn:He.
  - rewrite (Permutation_nil_r _ ) in Hperm; [|simpl; congruence..].
    by rewrite Hperm.
  - apply Permutation_singleton_r in Hperm; [|simpl; congruence].
    by rewrite Hperm.
  - simpl in Hle. lia.
Qed.

(** X5: [get] tells member pointers apart by the hash code of the class and
    the member selected only: two member pointers that agree on both get the
    same value, and fail together. *)
Theorem get_by_identity arg arg' s :
  Member_t_ctor arg = Member_t_ctor arg' →
  (∀ v : StoredType, get arg s = Normal v ↔ get arg' s = Normal v) ∧
  (throws (get arg s) ↔ throws (get arg' s)).
Proof.
  intros Heq. rewrite !get_entries. rewrite (entries_same_identity _ _ _ Heq).
  destruct (entries arg' s); [|done].
  split; [done|]. split; intros _; by eexists.
Qed.

End registry_more.

Lemma find_index_Some {A} (p : A → bool) (l : list A) i :
  find_index p l = Some i → ∃ x, l !! i = Some x ∧ p x = true.
Proof.
  revert i. induction l as [|x l IH]; intros i Hi; [done|].
  cbn [find_index] in Hi. destruct (p x) eqn:Hx.
  - injection Hi as <-. by exists x.
  - destruct (find_index p l) as [i'|]; [|done].
    injection Hi as <-. by apply IH.
Qed.

Lemma cached_hash_policy_compares : compares_hash_codes cached_hash_policy.
Proof.
  intros A hash equal h l i Hi. cbn in Hi.
  apply find_index_Some in Hi as (x & Hx & Hp).
  exists x. split; [done|].
  apply andb_true_iff in Hp as [Hh _]. by apply N.eqb_eq.
Qed.

Section registry_policies.
Context {policy : unordered_map_policy}.
Context {StoredType : Type}.
Import MemberStorage.

Implicit Types (s : list (node (StoredType := StoredType))).
Implicit Types (p : Process (StoredType := StoredType)).
Implicit Types (arg : MemberPtr) (T : type_info).
Implicit Types (init : Process (StoredType := StoredType)
                       → Process (StoredType := StoredType) * outcome ()).

(** X6: with a hash table that only finds nodes whose stored hash code is
    that of the key, every [registerMember] on a well-formed table adds a
    node: the member registered has one entry more than before, whether or
    not it had entries, and the table has one node more. *)
Theorem registerMember_always_adds arg (value : StoredType) p :
  compares_hash_codes policy →
  well_formed p →
  entries_for arg (storage (registerMember arg value p).2)
  = S (entries_for arg (storage p)) ∧
  length (storage (registerMember arg value p).2) = S (length (storage p)).
Proof.
  intros Hpol [Hlt _]. cbn [registerMember snd storage].
  unfold subscript_assign.
  destruct (lookup _ _ _ (storage p)) as [i|] eqn:Hi.
  - apply Hpol in Hi as (n & Hn & Hh). apply list_elem_of_lookup_2 in Hn.
    pose proof (proj1 (Forall_forall _ _) Hlt n Hn) as Hlt'.
    unfold node_hash, MemberHasher in Hh. simpl in Hh, Hlt'. lia.
  - split; [|by rewrite link_perm].
    unfold entries_for. rewrite entries_link. unfold entries.
    by rewrite filter_cons_True.
Qed.

(** X7: when the routine that [callInitMembers] runs throws, the exception
    reaches the caller with the process as the routine left it, and the flag
    of [T] stays unset (the routine has no access to the flags), so that the
    next call runs a routine again. *)
Theorem callInitMembers_throwing_routine T init init' p e :
  T ∉ once_flags p →
  (init p).2 = Throw e →
  once_flags (init p).1 = once_flags p →
  (init' (init p).1).2 = Normal () →
  callInitMembers T init p = ((init p).1, Throw e) ∧
  (T ∉ once_flags (callInitMembers T init p).1) ∧
  storage (callInitMembers T init' (callInitMembers T init p).1).1
  = storage (init' (init p).1).1.
Proof.
  intros Hflag Hthrow Hflags Hret.
  assert (callInitMembers T init p = ((init p).1, Throw e)) as Hcall.
  { unfold callInitMembers, call_once. rewrite decide_False by done.
    destruct (init p) as [p1 o]. simpl in Hthrow. by subst o. }
  rewrite Hcall. cbn [fst]. split; [done|]. split; [by rewrite Hflags|].
  unfold callInitMembers, call_once.
  rewrite decide_False by (by rewrite Hflags).
  destruct (init' (init p).1) as [p2 o]. simpl in Hret. by subst o.
Qed.

(** X8: once a call of [callInitMembers<T>] has run a routine that
    returned, every later call for the same [T] returns without running
    anything, whatever routine it is asked to run. *)
Theorem callInitMembers_later_calls_skip T init init' p :
  T ∉ once_flags p →
  (init p).2 = Normal () →
  callInitMembers T init' (callInitMembers T init p).1
  = ((callInitMembers T init p).1, Normal ()).
Proof.
  intros Hflag Hret. unfold callInitMembers, call_once at 2 3.
  rewrite decide_False by done.
  destruct (init p) as [p1 o]. simpl in Hret. subst o.
  unfold call_once. rewrite decide_True; [done|]. cbn [once_flags]. left.
Qed.

(** X9: the flag belongs to the type [T], not to the table: after a call
    for [T1], a first call for another type [T2] runs its routine. *)
Theorem callInitMembers_flag_per_type T1 T2 init init' p :
  T1 ≠ T2 →
  T2 ∉ once_flags p →
  T1 ∉ once_flags p →
  (init p).2 = Normal () →
  once_flags (init p).1 = once_flags p →
  let p1 := (callInitMembers T1 init p).1 in
  (init' p1).2 = Normal () →
  storage p1 = storage (init p).1 ∧
  storage (callInitMembers T2 init' p1).1 = storage (init' p1).1 ∧
  heap_top (callInitMembers T2 init' p1).1 = heap_top (init' p1).1 ∧
  once_flags (callInitMembers T2 init' p1).1 = T2 :: once_flags (init' p1).1.
Proof.
  intros Hne Hflag2 Hflag1 Hret Hflags p1 Hret'.
  assert (p1 = {| heap_top := heap_top (init p).1;
                  storage := storage (init p).1;
                  once_flags := T1 :: once_flags (init p).1 |}) as Hp1.
  { subst p1. unfold callInitMembers, call_once.
    rewrite decide_False by done.
    destruct (init p) as [q o]. simpl in Hret. by subst o. }
  split; [by rewrite Hp1|].
  assert (T2 ∉ once_flags p1) as Hflag2'.
  { rewrite Hp1. cbn [once_flags]. rewrite Hflags.
    apply not_elem_of_cons. split; [congruence|done]. }
  unfold callInitMembers, call_once. rewrite decide_False by done.
  destruct (init' p1) as [q o]. simpl in Hret'. by subst o.
Qed.

End registry_policies.

Section macro.
Context {policy : unordered_map_policy}.
Import MemberStorage Serializer.

Implicit Types (p : Process (StoredType := string)).
Implicit Types (members : list (MemberPtr * string)).

Lemma add_members_cons m members p :
  add_members (m :: members) p
  = add_members members (SERIALIZER_ADD_MEMBER m.1 m.2 p).
Proof. reflexivity. Qed.

Lemma add_members_entries_mono arg members p :
  entries_for arg (storage p) ≤ entries_for arg (storage (add_members members p)).
Proof.
  revert p. induction members as [|m members IH]; intros p; [done|].
  rewrite add_members_cons. etrans; [|apply IH].
  cbn [SERIALIZER_ADD_MEMBER registerMember snd storage].
  apply entries_for_subscript_assign.
Qed.

(** X10: a sequence of [SERIALIZER_ADD_MEMBER] statements, on any table and
    under every policy of the hash table, leaves an entry for every member
    it names, so that [get] returns for each of them; it allocates one
    identity object per statement, takes no entry away, leaves the flags
    alone and keeps the table well formed. *)
Theorem add_members_registers_all members p :
  Forall (λ m, returns (get m.1 (storage (add_members members p)))) members ∧
  heap_top (add_members members p)
  = (heap_top p + N.of_nat (length members))%N ∧
  once_flags (add_members members p) = once_flags p ∧
  (∀ arg, entries_for arg (storage p)
          ≤ entries_for arg (storage (add_members members p))) ∧
  (well_formed p → well_formed (add_members members p)).
Proof.
  split_and!.
  - revert p. induction members as [|m members IH]; intros p; [done|].
    rewrite add_members_cons. constructor; [|apply IH].
    apply get_returns_iff.
    pose proof (add_members_entries_mono m.1 members
                  (SERIALIZER_ADD_MEMBER m.1 m.2 p)) as Hmono.
    assert (entries_for m.1 (storage (SERIALIZER_ADD_MEMBER m.1 m.2 p)) ≠ 0)
      as Hm; [|lia].
    apply (registerMember_again m.1 m.2 m.2 p).
  - revert p. induction members as [|m members IH]; intros p.
    + simpl. lia.
    + rewrite add_members_cons, IH.
      cbn [SERIALIZER_ADD_MEMBER registerMember snd heap_top length]. lia.
  - revert p. induction members as [|m members IH]; intros p; [done|].
    by rewrite add_members_cons, IH.
  - intros arg. apply add_members_entries_mono.
  - revert p. induction members as [|m members IH]; intros p Hwf; [done|].
    rewrite add_members_cons. apply IH.
    by apply registerMember_well_formed.
Qed.

End macro.

(** * Further properties of the field helpers *)

Lemma same_shape_refl {val} (f : field val) : same_shape f f.
Proof. by destruct f. Qed.

Section helpers_more.
Context {policy : unordered_map_policy}.
Context {ty val : Type} `{EqDecision ty} {conv : adl_serializer ty val}.
Import MemberStorage Serializer.

Implicit Types (s : list (node (StoredType := string))).
Implicit Types (arg : MemberPtr) (instance : gmap Z (field val)).
Implicit Types (M : member_type ty) (T : ty).

(** What a reference that [getMemberRef] returns is made of. *)
Lemma getMemberRef_mut_Normal T M arg instance r :
  getMemberRef_mut T M arg instance = Normal r →
  ∃ f, instance !! member_sel arg = Some f ∧
    getMemberRef T M arg instance = Normal (referent r) ∧
    store r (referent r) = instance ∧
    ∀ w, ∃ g, store r w = <[member_sel arg := g]> instance ∧ same_shape f g ∧
      getMemberRef T M arg (<[member_sel arg := g]> instance) = Normal w ∧
      returns (getMemberRef_mut T M arg (<[member_sel arg := g]> instance)).
Proof.
  unfold getMemberRef_mut, getMemberRef.
  destruct (instance !! member_sel arg) as [f|] eqn:Hf; [|done].
  intros Hr. exists f. split; [done|].
  destruct M as [|alts|], f as [v|i v|[v|]]; cbn in Hr |- *; try done.
  - injection Hr as <-. cbn. split; [done|]. split; [by apply insert_id|].
    intros w. exists (Value w). rewrite lookup_insert_eq.
    split_and!; [done..|by eexists].
  - unfold std_get in *.
    destruct (positions T alts 0) as [|j [|]]; try done.
    destruct (decide (i = j)) as [->|]; [|done].
    injection Hr as <-. cbn. split; [done|]. split; [by apply insert_id|].
    intros w. exists (VariantValue j w). rewrite lookup_insert_eq.
    rewrite decide_True by done. split_and!; [done..|by eexists].
  - injection Hr as <-. cbn. split; [done|]. split; [by apply insert_id|].
    intros w. exists (SharedPtr (Some w)). rewrite lookup_insert_eq.
    split_and!; [done|by split; eexists|done|by eexists].
Qed.

(** [to_json_simple] by cases. *)
Lemma to_json_simple_cases s M T target arg instance :
  to_json_simple s M T target arg instance =
    match get arg s with
    | Normal name =>
        match getMemberRef T M arg instance with
        | Normal v =>
            match target with
            | JNull | JObj _ =>
                Normal (JObj (<[name := adl_to_json T v]> (members_of target)))
            | _ => Normal target
            end
        | Throw _ => Normal target
        | Undefined => Undefined
        | IllFormed => IllFormed
        end
    | _ => Normal target
    end.
Proof.
  unfold to_json_simple. pose proof (get_defined arg s) as Hd.
  destruct (get arg s) as [name| | |]; try done.
  cbn. destruct (getMemberRef T M arg instance) as [v| | |]; try done.
  cbn. by destruct target.
Qed.

(** X11: a reference from the mutable [getMemberRef] refers to what the
    constant overload returns; assigning the value read changes nothing;
    after assigning [w], the member resolves to [w], keeps its shape (a
    variant keeps its alternative, a pointer stays owning) and still gives a
    reference, and every other member is as before. *)
Theorem getMemberRef_reference T M arg instance r :
  getMemberRef_mut T M arg instance = Normal r →
  getMemberRef T M arg instance = Normal (referent r) ∧
  store r (referent r) = instance ∧
  ∀ w,
    getMemberRef T M arg (store r w) = Normal w ∧
    returns (getMemberRef_mut T M arg (store r w)) ∧
    (∀ k, k ≠ member_sel arg → store r w !! k = instance !! k) ∧
    (∃ f g, instance !! member_sel arg = Some f ∧
            store r w !! member_sel arg = Some g ∧ same_shape f g).
Proof.
  intros Hr.
  destruct (getMemberRef_mut_Normal _ _ _ _ _ Hr) as (f & Hf & Hc & Hid & Hw).
  split; [done|]. split; [done|]. intros w.
  destruct (Hw w) as (g & -> & Hshape & Hread & Hmut).
  split_and!; [done|done| |].
  - intros k Hk. by rewrite lookup_insert_ne.
  - exists f, g. by rewrite lookup_insert_eq.
Qed.

(** X12: [to_json_simple] never throws to its caller.  When it returns, the
    target is either as it was, or it is an object that differs from the
    target only under the member's key, where it holds the conversion of the
    member; a target that is neither null nor an object is always left as it
    was.  The call returns whenever [getMemberRef] returns or throws. *)
Theorem to_json_simple_never_throws s M T target arg instance :
  ¬ throws (to_json_simple s M T target arg instance) ∧
  (∀ j', to_json_simple s M T target arg instance = Normal j' →
     j' = target ∨
     ∃ name v, get arg s = Normal name ∧
       getMemberRef T M arg instance = Normal v ∧ is_document target ∧
       j' = JObj (<[name := adl_to_json T v]> (members_of target))) ∧
  (¬ is_document target →
   ∀ j', to_json_simple s M T target arg instance = Normal j' → j' = target) ∧
  (defined (getMemberRef T M arg instance) →
   returns (to_json_simple s M T target arg instance)).
Proof.
  rewrite to_json_simple_cases.
  destruct (get arg s) as [name|e| |] eqn:Hget.
  - destruct (getMemberRef T M arg instance) as [v|e| |] eqn:Hv.
    + destruct target; split_and!;
        try (intros [e He]; discriminate He);
        try (intros j' [= <-]; (by left) || (right; by exists name, v));
        try (intros Hdoc j' [= <-]; done || by destruct Hdoc);
        try (intros _; by eexists).
    + split_and!; [intros [e' He]; discriminate He| | |intros _; by eexists].
      * intros j' [= <-]. by left.
      * by intros _ j' [= <-].
    + split_and!; [intros [e' He]; discriminate He|done|done|done].
    + split_and!; [intros [e' He]; discriminate He|done|done|done].
  - split_and!; [intros [e' He]; discriminate He| | |intros _; by eexists].
    + intros j' [= <-]. by left.
    + by intros _ j' [= <-].
  - split_and!; [intros [e' He]; discriminate He| | |intros _; by eexists].
    + intros j' [= <-]. by left.
    + by intros _ j' [= <-].
  - split_and!; [intros [e' He]; discriminate He| | |intros _; by eexists].
    + intros j' [= <-]. by left.
    + by intros _ j' [= <-].
Qed.

(** X13: [to_json_simple] is idempotent: a second call with the same
    arguments on the target that the first call left changes nothing. *)
Theorem to_json_simple_idempotent s M T target arg instance j' :
  to_json_simple s M T target arg instance = Normal j' →
  to_json_simple s M T j' arg instance = Normal j'.
Proof.
  rewrite !to_json_simple_cases.
  destruct (get arg s) as [name|e| |]; [|by intros [= <-]..].
  destruct (getMemberRef T M arg instance) as [v|e| |];
    [|by intros [= <-]|done..].
  destruct target; intros [= <-]; try done; cbn; by rewrite insert_insert_eq.
Qed.

(** [from_json_simple] by cases. *)
Lemma from_json_simple_cases s M T source arg instance :
  from_json_simple s M T source arg instance =
    match get arg s with
    | Normal name =>
        match json_at name source with
        | Normal j =>
            match getMemberRef_mut T M arg instance with
            | Normal r =>
                match adl_from_json T j with
                | Normal w => Normal (store r w)
                | Throw _ => Normal instance
                | Undefined => Undefined
                | IllFormed => IllFormed
                end
            | Throw _ => Normal instance
            | Undefined => Undefined
            | IllFormed => IllFormed
            end
        | _ => Normal instance
        end
    | _ => Normal instance
    end.
Proof.
  unfold from_json_simple. pose proof (get_defined arg s) as Hd.
  destruct (get arg s) as [name| | |]; try done. cbn.
  rewrite json_at_members.
  destruct (members_of source !! name) as [j|]; [|done]. cbn.
  destruct (getMemberRef_mut T M arg instance) as [r| | |]; try done.
  cbn. unfold get_to. by destruct (adl_from_json T j).
Qed.

(** X14: when the member is registered, the source document has a child
    under its key, the child converts and the member resolves,
    [from_json_simple] assigns the converted value through the reference,
    and the member then resolves to that value. *)
Theorem from_json_simple_assigns s M T source arg instance name j w r :
  get arg s = Normal name →
  members_of source !! name = Some j →
  adl_from_json T j = Normal w →
  getMemberRef_mut T M arg instance = Normal r →
  from_json_simple s M T source arg instance = Normal (store r w) ∧
  getMemberRef T M arg (store r w) = Normal w.
Proof.
  intros Hget Hj Hw Hr. rewrite from_json_simple_cases.
  rewrite Hget, json_at_members, Hj, Hr, Hw. split; [done|].
  destruct (getMemberRef_mut_Normal _ _ _ _ _ Hr) as (f & _ & _ & _ & Hst).
  by destruct (Hst w) as (g & -> & _ & Hread & _).
Qed.

(** X15: [from_json_simple] never throws to its caller, and when it returns
    the object differs from the one it got at most in the selected member,
    which keeps its shape: a variant holds the alternative it held, an
    owning pointer stays owning, an empty one empty. *)
Theorem from_json_simple_never_throws s M T source arg instance :
  ¬ throws (from_json_simple s M T source arg instance) ∧
  ∀ instance', from_json_simple s M T source arg instance = Normal instance' →
    (∀ k, k ≠ member_sel arg → instance' !! k = instance !! k) ∧
    option_Forall2 same_shape (instance !! member_sel arg)
      (instance' !! member_sel arg).
Proof.
  rewrite from_json_simple_cases.
  assert (option_Forall2 same_shape (instance !! member_sel arg)
            (instance !! member_sel arg)) as Hrefl.
  { destruct (instance !! member_sel arg); constructor.
    apply same_shape_refl. }
  assert (∀ o : outcome (gmap Z (field val)), o = Normal instance →
            ¬ throws o ∧ ∀ instance', o = Normal instance' →
              (∀ k, k ≠ member_sel arg → instance' !! k = instance !! k) ∧
              option_Forall2 same_shape (instance !! member_sel arg)
                (instance' !! member_sel arg)) as Hsame.
  { intros o ->. split; [intros [e He]; discriminate He|].
    by intros instance' [= <-]. }
  destruct (get arg s) as [name|e| |]; [|by apply Hsame..].
  destruct (json_at name source) as [j|e| |]; [|by apply Hsame..].
  destruct (getMemberRef_mut T M arg instance) as [r|e| |] eqn:Hr;
    [|by apply Hsame|split; [intros [e He]; discriminate He|done]..].
  destruct (adl_from_json T j) as [w|e| |];
    [|by apply Hsame|split; [intros [e He]; discriminate He|done]..].
  split; [intros [e He]; discriminate He|].
  intros instance' [= <-].
  destruct (getMemberRef_mut_Normal _ _ _ _ _ Hr) as (f & Hf & _ & _ & Hst).
  destruct (Hst w) as (g & -> & Hshape & _). split.
  - intros k Hk. by rewrite lookup_insert_ne.
  - rewrite Hf, lookup_insert_eq. by constructor.
Qed.

(** X16: reading into an alternative that a variant member does not hold
    leaves the object as it was, whatever the table and the source document
    are: [from_json_simple] never makes a variant hold another
    alternative. *)
Theorem from_json_simple_other_alternative s alts A a b (v : val) source arg
    instance :
  instance !! member_sel arg = Some (VariantValue b v) →
  positions A alts 0 = [a] →
  a ≠ b →
  from_json_simple s (variant alts) A source arg instance = Normal instance.
Proof.
  intros Hf HA Hne. rewrite from_json_simple_cases.
  destruct (get arg s) as [name|e| |]; [|done..].
  destruct (json_at name source) as [j|e| |]; [|done..].
  unfold getMemberRef_mut. rewrite Hf. cbn.
  rewrite (std_get_other _ _ a); [done|done|congruence].
Qed.

(** X17: [add_json_to_property] always returns to its caller; for a
    registered member and a target that is null or an object it stores the
    source document under the member's key; for a member without entry, and
    for a target that is neither null nor an object, the target stays as it
    was. *)
Theorem add_json_to_property_returns s target arg source :
  returns (add_json_to_property s target arg source) ∧
  (∀ name, get arg s = Normal name → is_document target →
     add_json_to_property s target arg source
     = Normal (JObj (<[name := source]> (members_of target)))) ∧
  (entries_for arg s = 0 →
   add_json_to_property s target arg source = Normal target) ∧
  (¬ is_document target →
   add_json_to_property s target arg source = Normal target).
Proof.
  unfold add_json_to_property. pose proof (get_defined arg s) as Hd.
  split_and!.
  - destruct (get arg s) as [name| | |]; try done; cbn; [|by eexists].
    destruct target; cbn; by eexists.
  - intros name -> Hdoc. cbn. by rewrite json_set_document.
  - intros H0. by rewrite (get_unregistered _ _ H0).
  - intros Hdoc. destruct (get arg s) as [name| | |]; try done; cbn.
    destruct target; try done; by destruct Hdoc.
Qed.

(** X18: what [add_json_to_property] stores for a registered member is what
    [get_json_for_property] returns for it afterwards, and the call does not
    change what [get_json_for_property] returns for a member registered
    under another key. *)
Theorem add_json_then_get_json s target arg source name :
  get arg s = Normal name →
  is_document target →
  ∃ j', add_json_to_property s target arg source = Normal j' ∧
    get_json_for_property s j' arg = Normal source ∧
    ∀ arg' name', get arg' s = Normal name' → name' ≠ name →
      get_json_for_property s j' arg' = get_json_for_property s target arg'.
Proof.
  intros Hget Hdoc. eexists. split.
  - unfold add_json_to_property. rewrite Hget. cbn.
    by rewrite json_set_document.
  - unfold get_json_for_property. rewrite Hget. cbn.
    rewrite lookup_insert_eq. split; [done|].
    intros arg' name' -> Hne. cbn. rewrite lookup_insert_ne by done.
    rewrite (json_at_members name' target).
    destruct target; try done; by destruct (_ !! name').
Qed.

(** X19: for a registered member that resolves to a value which the
    document conversions give back, reading the document that
    [to_json_simple] has just written back into the same object leaves the
    object as it was. *)
Theorem to_json_simple_then_from_json_simple s M T target arg instance name v :
  get arg s = Normal name →
  getMemberRef T M arg instance = Normal v →
  adl_from_json T (adl_to_json T v) = Normal v →
  is_document target →
  ∃ doc, to_json_simple s M T target arg instance = Normal doc ∧
    members_of doc !! name = Some (adl_to_json T v) ∧
    from_json_simple s M T doc arg instance = Normal instance.
Proof.
  intros Hget Hv Hloss Hdoc.
  exists (JObj (<[name := adl_to_json T v]> (members_of target))).
  split_and!.
  - rewrite to_json_simple_cases, Hget, Hv. by destruct target.
  - cbn. by rewrite lookup_insert_eq.
  - rewrite from_json_simple_cases, Hget. cbn. rewrite lookup_insert_eq.
    pose proof (getMemberRef_mut_referent T M arg instance) as Href.
    rewrite Hv in Href.
    destruct (getMemberRef_mut T M arg instance) as [r| | |] eqn:Hr;
      try done.
    injection Href as Href. rewrite Hloss.
    destruct (getMemberRef_mut_Normal _ _ _ _ _ Hr) as (_ & _ & _ & Hid & _).
    by rewrite <- Href, Hid.
Qed.

(** X20: a class that calls [to_json_simple] for each alternative of a
    variant member in turn writes exactly the alternative held: for the
    held alternative [B] and another alternative [A], the two calls, in
    either order, leave the conversion of the held value under the member's
    key. *)
Theorem to_json_simple_each_alternative s alts A B a b (v : val) target arg
    instance name :
  get arg s = Normal name →
  instance !! member_sel arg = Some (VariantValue b v) →
  positions A alts 0 = [a] →
  positions B alts 0 = [b] →
  a ≠ b →
  is_document target →
  (j ← to_json_simple s (variant alts) A target arg instance;
   to_json_simple s (variant alts) B j arg instance)
  = Normal (JObj (<[name := adl_to_json B v]> (members_of target))) ∧
  (j ← to_json_simple s (variant alts) B target arg instance;
   to_json_simple s (variant alts) A j arg instance)
  = Normal (JObj (<[name := adl_to_json B v]> (members_of target))).
Proof.
  intros Hget Hf HA HB Hne Hdoc.
  assert (getMemberRef A (variant alts) arg instance = Throw bad_variant_access)
    as HrA.
  { unfold getMemberRef. rewrite Hf. cbn.
    apply (std_get_other _ _ a); [done|congruence]. }
  assert (getMemberRef B (variant alts) arg instance = Normal v) as HrB.
  { unfold getMemberRef. rewrite Hf. cbn. by apply std_get_held. }
  rewrite !to_json_simple_cases, Hget, HrA, HrB. cbn.
  split.
  - rewrite to_json_simple_cases, Hget, HrB. by destruct target.
  - destruct target; try done; cbn;
      by rewrite to_json_simple_cases, Hget, HrA.
Qed.

End helpers_more.

(** * The further properties at the two classes *)

Section demo_more.
Import MemberStorage Serializer Demo.

Lemma Point_process_well_formed : well_formed Point_process.
Proof.
  split.
  - repeat constructor.
  - apply (bool_decide_unpack _). vm_compute. exact I.
Qed.

(** X1 at three identity objects of the member [x] of [Point]. *)
Lemma MemberEqual_equivalence_Point :
  let k a := {| address := a; pointee := Member_t_ctor Point_x |} in
  MemberEqual (k 1%N) (k 2%N) = true ∧ MemberEqual (k 2%N) (k 3%N) = true ∧
  MemberEqual (k 1%N) (k 3%N) = true ∧
  MemberEqual (k 1%N) (k 2%N) = MemberEqual (k 2%N) (k 1%N).
Proof.
  intros k.
  assert (MemberEqual (k 1%N) (k 2%N) = true) as H12 by reflexivity.
  assert (MemberEqual (k 2%N) (k 3%N) = true) as H23 by reflexivity.
  destruct (MemberEqual_equivalence (k 1%N) (k 2%N) (k 3%N))
    as (_ & Hsym & Htrans & _).
  split_and!; [exact H12|exact H23|exact (Htrans H12 H23)|exact Hsym].
Defined.

(** X2 at the table of [Point]. *)
Lemma registerMember_keeps_well_formed_Point :
  well_formed Point_process ∧
  well_formed (registerMember Point_x "x" Point_process).2 ∧
  Forall (λ n, MemberHasher (key n) ≠ heap_top Point_process)
    (storage Point_process).
Proof.
  split; [exact Point_process_well_formed|].
  exact (registerMember_keeps_well_formed Point_x "x" Point_process
           Point_process_well_formed).
Defined.

(** X3 at the table of [Point], registering [x] again and looking at
    [y]. *)
Lemma registerMember_never_unregisters_Point :
  returns (get Point_y (storage Point_process)) ∧
  returns (get Point_y (storage (registerMember Point_x "x" Point_process).2)) ∧
  entries_for Point_y (storage Point_process)
  ≤ entries_for Point_y (storage (registerMember Point_x "x" Point_process).2).
Proof.
  assert (returns (get Point_y (storage Point_process))) as Hret
    by (eexists; reflexivity).
  destruct (registerMember_never_unregisters Point_x Point_y "x" Point_process)
    as (Hle & _ & _ & _ & _ & Hkeep).
  split_and!; [exact Hret|exact (Hkeep Hret)|exact Hle].
Defined.

(** X4 at the table of [Point], registering [x] under another name and
    looking at [y]. *)
Lemma registerMember_get_other_Point :
  Member_t_ctor Point_y ≠ Member_t_ctor Point_x ∧
  entries_for Point_y (storage Point_process) ≤ 1 ∧
  get Point_y (storage (registerMember Point_x "abscissa" Point_process).2)
  = get Point_y (storage Point_process).
Proof.
  assert (Member_t_ctor Point_y ≠ Member_t_ctor Point_x) as Hne
    by discriminate.
  assert (entries_for Point_y (storage Point_process) ≤ 1) as Hle
    by (vm_compute; lia).
  split_and!; [exact Hne|exact Hle|].
  exact (registerMember_get_other Point_x Point_y "abscissa" Point_process
           Hne Hle).
Defined.

(** X5 at the member [x] of [Point] and a member pointer of a class of
    another name whose hash code is that of [Point]. *)
Lemma get_by_identity_Point :
  let other := {| ClassType := {| name := "5Pixel"; hash_code := 101 |};
                  MemberType := typeid_bool; member_sel := 0 |} in
  Member_t_ctor Point_x = Member_t_ctor other ∧
  get Point_x (storage Point_process) = Normal "x" ∧
  get other (storage Point_process) = Normal "x".
Proof.
  intros other.
  assert (Member_t_ctor Point_x = Member_t_ctor other) as Heq by reflexivity.
  assert (get Point_x (storage Point_process) = Normal "x") as Hx
    by reflexivity.
  split_and!; [exact Heq|exact Hx|].
  exact (proj1 (proj1 (get_by_identity Point_x other (storage Point_process)
                         Heq) "x") Hx).
Defined.

(** X6 at the table of [Point], registering [x] again. *)
Lemma registerMember_always_adds_Point :
  compares_hash_codes cached_hash_policy ∧
  well_formed Point_process ∧
  entries_for Point_x (storage (registerMember Point_x "x" Point_process).2)
  = S (entries_for Point_x (storage Point_process)) ∧
  length (storage (registerMember Point_x "x" Point_process).2)
  = S (length (storage Point_process)).
Proof.
  split; [exact cached_hash_policy_compares|].
  split; [exact Point_process_well_formed|].
  exact (registerMember_always_adds Point_x "x" Point_process
           cached_hash_policy_compares Point_process_well_formed).
Defined.

(** X7 at a fresh process and a routine that throws after registering. *)
Lemma callInitMembers_throwing_routine_Point :
  (typeid_Point ∉ once_flags (startup (StoredType := string))) ∧
  (throwing_init startup).2 = Throw (runtime_error "init") ∧
  once_flags (throwing_init startup).1
  = once_flags (startup (StoredType := string)) ∧
  (returning_init (throwing_init startup).1).2 = Normal () ∧
  callInitMembers typeid_Point throwing_init startup
  = ((throwing_init startup).1, Throw (runtime_error "init")) ∧
  (typeid_Point
   ∉ once_flags (callInitMembers typeid_Point throwing_init startup).1) ∧
  storage (callInitMembers typeid_Point returning_init
             (callInitMembers typeid_Point throwing_init startup).1).1
  = storage (returning_init (throwing_init startup).1).1.
Proof.
  assert (typeid_Point ∉ once_flags (startup (StoredType := string))) as H1
    by apply not_elem_of_nil.
  assert ((throwing_init startup).2 = Throw (runtime_error "init")) as H2
    by reflexivity.
  assert (once_flags (throwing_init startup).1
          = once_flags (startup (StoredType := string))) as H3 by reflexivity.
  assert ((returning_init (throwing_init startup).1).2 = Normal ()) as H4
    by reflexivity.
  split_and!; [exact H1|exact H2|exact H3|exact H4|..];
    apply (callInitMembers_throwing_routine typeid_Point throwing_init
             returning_init startup (runtime_error "init") H1 H2 H3 H4).
Defined.

(** X8 at a fresh process: after the routine of [Point] has returned, a
    call that would run the throwing routine runs nothing. *)
Lemma callInitMembers_later_calls_skip_Point :
  (typeid_Point ∉ once_flags (startup (StoredType := string))) ∧
  (returning_init startup).2 = Normal () ∧
  callInitMembers typeid_Point throwing_init
    (callInitMembers typeid_Point returning_init startup).1
  = ((callInitMembers typeid_Point returning_init startup).1, Normal ()).
Proof.
  assert (typeid_Point ∉ once_flags (startup (StoredType := string))) as H1
    by apply not_elem_of_nil.
  assert ((returning_init startup).2 = Normal ()) as H2 by reflexivity.
  split_and!; [exact H1|exact H2|].
  exact (callInitMembers_later_calls_skip typeid_Point returning_init
           throwing_init startup H1 H2).
Defined.

(** X9 at a fresh process: the routine that registers the members of
    [Point] runs for the type [Point] and again for the type [Shape]. *)
Lemma callInitMembers_flag_per_type_Point :
  let p1 := (callInitMembers typeid_Point returning_init startup).1 in
  typeid_Point ≠ typeid_Shape ∧
  (typeid_Shape ∉ once_flags (startup (StoredType := string))) ∧
  (typeid_Point ∉ once_flags (startup (StoredType := string))) ∧
  (returning_init startup).2 = Normal () ∧
  once_flags (returning_init startup).1
  = once_flags (startup (StoredType := string)) ∧
  (returning_init p1).2 = Normal () ∧
  storage (callInitMembers typeid_Shape returning_init p1).1
  = storage (returning_init p1).1 ∧
  length (storage (callInitMembers typeid_Shape returning_init p1).1) = 4.
Proof.
  intros p1.
  assert (typeid_Point ≠ typeid_Shape) as H0 by discriminate.
  assert (typeid_Shape ∉ once_flags (startup (StoredType := string))) as H1
    by apply not_elem_of_nil.
  assert (typeid_Point ∉ once_flags (startup (StoredType := string))) as H2
    by apply not_elem_of_nil.
  assert ((returning_init startup).2 = Normal ()) as H3 by reflexivity.
  assert (once_flags (returning_init startup).1
          = once_flags (startup (StoredType := string))) as H4 by reflexivity.
  assert ((returning_init p1).2 = Normal ()) as H5 by reflexivity.
  destruct (callInitMembers_flag_per_type typeid_Point typeid_Shape
              returning_init returning_init startup H0 H1 H2 H3 H4 H5)
    as (_ & Hrun & _ & _).
  split_and!; [exact H0|exact H1|exact H2|exact H3|exact H4|exact H5
              |exact Hrun|].
  fold p1 in Hrun. rewrite Hrun. reflexivity.
Defined.

(** X10 at the members of [Point], added to the table of [Point]. *)
Lemma add_members_registers_all_Point :
  well_formed Point_process ∧
  well_formed (add_members Point_members Point_process) ∧
  Forall (λ m, returns (get m.1 (storage (add_members Point_members
                                            Point_process)))) Point_members ∧
  heap_top (add_members Point_members Point_process) = 5%N.
Proof.
  destruct (add_members_registers_all Point_members Point_process)
    as (Hall & Htop & _ & _ & Hwf).
  split_and!; [exact Point_process_well_formed
              |exact (Hwf Point_process_well_formed)|exact Hall|exact Htop].
Defined.

(** X11 at the [tag] of a [Shape] that holds the [std::string]
    alternative. *)
Lemma getMemberRef_reference_Shape :
  let obj := shape (1, Vstring "sq") (Some 5%Z) true in
  let r := {| referent := Vstring "sq";
              store := λ w, <[member_sel Shape_tag := VariantValue 1 w]> obj |} in
  getMemberRef_mut Tstring (variant tag_alternatives) Shape_tag obj = Normal r ∧
  getMemberRef Tstring (variant tag_alternatives) Shape_tag obj
  = Normal (Vstring "sq") ∧
  store r (Vstring "sq") = obj ∧
  getMemberRef Tstring (variant tag_alternatives) Shape_tag
    (store r (Vstring "round")) = Normal (Vstring "round").
Proof.
  intros obj r.
  assert (getMemberRef_mut Tstring (variant tag_alternatives) Shape_tag obj
          = Normal r) as Hr by reflexivity.
  destruct (getMemberRef_reference Tstring (variant tag_alternatives)
              Shape_tag obj r Hr) as (Hread & Hid & Hw).
  split_and!; [exact Hr|exact Hread|exact Hid
              |exact (proj1 (Hw (Vstring "round")))].
Defined.

(** X12 at the member [x] of a [Point] and a target that is an array. *)
Lemma to_json_simple_never_throws_Point :
  let s := storage Point_process in
  ¬ throws (to_json_simple s direct Tint (JArr []) Point_x (point 3 4)) ∧
  ¬ is_document (JArr []) ∧
  to_json_simple s direct Tint (JArr []) Point_x (point 3 4)
  = Normal (JArr []) ∧
  defined (getMemberRef Tint direct Point_x (point 3 4)) ∧
  returns (to_json_simple s direct Tint (JArr []) Point_x (point 3 4)).
Proof.
  intros s.
  destruct (to_json_simple_never_throws s direct Tint (JArr []) Point_x
              (point 3 4)) as (Hnot & _ & Harr & Hret).
  assert (¬ is_document (JArr [])) as Hdoc by exact id.
  assert (defined (getMemberRef Tint direct Point_x (point 3 4))) as Hdef
    by exact I.
  destruct (Hret Hdef) as [j' Hj'].
  split_and!; [exact Hnot|exact Hdoc| |exact Hdef|exact (Hret Hdef)].
  rewrite Hj'. f_equal. exact (Harr Hdoc j' Hj').
Defined.

(** X13 at the member [x] of a [Point]. *)
Lemma to_json_simple_idempotent_Point :
  let s := storage Point_process in
  to_json_simple s direct Tint JNull Point_x (point 3 4)
  = Normal (JObj {[ "x" := JInt 3 ]}) ∧
  to_json_simple s direct Tint (JObj {[ "x" := JInt 3 ]}) Point_x (point 3 4)
  = Normal (JObj {[ "x" := JInt 3 ]}).
Proof.
  intros s.
  assert (to_json_simple s direct Tint JNull Point_x (point 3 4)
          = Normal (JObj {[ "x" := JInt 3 ]})) as H1 by reflexivity.
  split; [exact H1|].
  exact (to_json_simple_idempotent s direct Tint JNull Point_x (point 3 4)
           (JObj {[ "x" := JInt 3 ]}) H1).
Defined.

(** X14 at the member [y] of a default [Point] and the document
    [{"y":7}]. *)
Lemma from_json_simple_assigns_Point :
  let s := storage Point_process in
  let source := JObj {[ "y" := JInt 7 ]} in
  let r := {| referent := Vint 0;
              store := λ w, <[member_sel Point_y := Value w]> (point 0 0) |} in
  get Point_y s = Normal "y" ∧
  members_of source !! "y" = Some (JInt 7) ∧
  adl_from_json Tint (JInt 7) = Normal (Vint 7) ∧
  getMemberRef_mut Tint direct Point_y (point 0 0) = Normal r ∧
  from_json_simple s direct Tint source Point_y (point 0 0)
  = Normal (store r (Vint 7)) ∧
  getMemberRef Tint direct Point_y (store r (Vint 7)) = Normal (Vint 7).
Proof.
  intros s source r.
  assert (get Point_y s = Normal "y") as H1 by reflexivity.
  assert (members_of source !! "y" = Some (JInt 7)) as H2 by reflexivity.
  assert (adl_from_json Tint (JInt 7) = Normal (Vint 7)) as H3 by reflexivity.
  assert (getMemberRef_mut Tint direct Point_y (point 0 0) = Normal r) as H4
    by reflexivity.
  split_and!; [exact H1|exact H2|exact H3|exact H4|..];
    apply (from_json_simple_assigns s direct Tint source Point_y (point 0 0)
             "y" (JInt 7) (Vint 7) r H1 H2 H3 H4).
Defined.

(** X15 at the [tag] of a [Shape] that holds the [std::string]
    alternative, read from [{"tag":"round"}]. *)
Lemma from_json_simple_never_throws_Shape :
  let s := storage Shape_process in
  let obj := shape (1, Vstring "sq") (Some 5%Z) true in
  let source := JObj {[ "tag" := JStr "round" ]} in
  from_json_simple s (variant tag_alternatives) Tstring source Shape_tag obj
  = Normal (shape (1, Vstring "round") (Some 5%Z) true) ∧
  ¬ throws (from_json_simple s (variant tag_alternatives) Tstring source
              Shape_tag obj) ∧
  shape (1, Vstring "round") (Some 5%Z) true !! member_sel Shape_weight
  = obj !! member_sel Shape_weight ∧
  option_Forall2 same_shape (obj !! member_sel Shape_tag)
    (shape (1, Vstring "round") (Some 5%Z) true !! member_sel Shape_tag).
Proof.
  intros s obj source.
  assert (from_json_simple s (variant tag_alternatives) Tstring source
            Shape_tag obj
          = Normal (shape (1, Vstring "round") (Some 5%Z) true)) as Hread
    by reflexivity.
  destruct (from_json_simple_never_throws s (variant tag_alternatives) Tstring
              source Shape_tag obj) as [Hnot Hframe].
  destruct (Hframe _ Hread) as [Hother Hshape].
  assert (member_sel Shape_weight ≠ member_sel Shape_tag) as Hne
    by discriminate.
  split_and!; [exact Hread|exact Hnot|exact (Hother _ Hne)|exact Hshape].
Defined.

(** X16 at the [tag] of a [Shape] that holds the [int] alternative, read
    as a [std::string] from [{"tag":"round"}]. *)
Lemma from_json_simple_other_alternative_Shape :
  let obj := shape (0, Vint 9) (Some 5%Z) true in
  obj !! member_sel Shape_tag = Some (VariantValue 0 (Vint 9)) ∧
  positions Tstring tag_alternatives 0 = [1] ∧
  1 ≠ 0 ∧
  from_json_simple (storage Shape_process) (variant tag_alternatives) Tstring
    (JObj {[ "tag" := JStr "round" ]}) Shape_tag obj = Normal obj.
Proof.
  intros obj.
  assert (obj !! member_sel Shape_tag = Some (VariantValue 0 (Vint 9))) as H1
    by reflexivity.
  assert (positions Tstring tag_alternatives 0 = [1]) as H2 by reflexivity.
  assert (1 ≠ 0) as H3 by lia.
  split_and!; [exact H1|exact H2|exact H3|].
  exact (from_json_simple_other_alternative (storage Shape_process)
           tag_alternatives Tstring 1 0 (Vint 9)
           (JObj {[ "tag" := JStr "round" ]}) Shape_tag obj H1 H2 H3).
Defined.

(** X17 at the table of [Point]: a registered member, a member without
    entry, and a target that is a number. *)
Lemma add_json_to_property_returns_Point :
  let s := storage Point_process in
  let source := JObj {[ "unit" := JStr "mm" ]} in
  (get Point_x s = Normal "x" ∧ is_document JNull ∧
   add_json_to_property s JNull Point_x source
   = Normal (JObj (<["x" := source]> (members_of JNull)))) ∧
  (entries_for Shape_tag s = 0 ∧
   add_json_to_property s JNull Shape_tag source = Normal JNull) ∧
  (¬ is_document (JInt 1) ∧
   add_json_to_property s (JInt 1) Point_x source = Normal (JInt 1)).
Proof.
  intros s source.
  assert (get Point_x s = Normal "x") as H1 by reflexivity.
  assert (entries_for Shape_tag s = 0) as H2 by reflexivity.
  assert (¬ is_document (JInt 1)) as H3 by exact id.
  split_and!; [exact H1|exact I| |exact H2| |exact H3|].
  - exact (proj1 (proj2 (add_json_to_property_returns s JNull Point_x source))
             "x" H1 I).
  - exact (proj1 (proj2 (proj2
             (add_json_to_property_returns s JNull Shape_tag source))) H2).
  - exact (proj2 (proj2 (proj2
             (add_json_to_property_returns s (JInt 1) Point_x source))) H3).
Defined.

(** X18 at the member [x] of [Point]. *)
Lemma add_json_then_get_json_Point :
  let s := storage Point_process in
  let source := JObj {[ "unit" := JStr "mm" ]} in
  get Point_x s = Normal "x" ∧ is_document JNull ∧
  ∃ j', add_json_to_property s JNull Point_x source = Normal j' ∧
    get_json_for_property s j' Point_x = Normal source ∧
    ∀ arg' name', get arg' s = Normal name' → name' ≠ "x" →
      get_json_for_property s j' arg' = get_json_for_property s JNull arg'.
Proof.
  intros s source.
  assert (get Point_x s = Normal "x") as H1 by reflexivity.
  split_and!; [exact H1|exact I|].
  exact (add_json_then_get_json s JNull Point_x source "x" H1 I).
Defined.

(** X19 at the [weight] of a [Shape] that owns [5]. *)
Lemma to_json_simple_then_from_json_simple_Shape :
  let s := storage Shape_process in
  let obj := shape (1, Vstring "sq") (Some 5%Z) true in
  get Shape_weight s = Normal "weight" ∧
  getMemberRef Tint shared_ptr Shape_weight obj = Normal (Vint 5) ∧
  adl_from_json Tint (adl_to_json Tint (Vint 5)) = Normal (Vint 5) ∧
  is_document JNull ∧
  ∃ doc, to_json_simple s shared_ptr Tint JNull Shape_weight obj = Normal doc ∧
    members_of doc !! "weight" = Some (adl_to_json Tint (Vint 5)) ∧
    from_json_simple s shared_ptr Tint doc Shape_weight obj = Normal obj.
Proof.
  intros s obj.
  assert (get Shape_weight s = Normal "weight") as H1 by reflexivity.
  assert (getMemberRef Tint shared_ptr Shape_weight obj = Normal (Vint 5))
    as H2 by reflexivity.
  assert (adl_from_json Tint (adl_to_json Tint (Vint 5)) = Normal (Vint 5))
    as H3 by reflexivity.
  split_and!; [exact H1|exact H2|exact H3|exact I|].
  exact (to_json_simple_then_from_json_simple s shared_ptr Tint JNull
           Shape_weight obj "weight" (Vint 5) H1 H2 H3 I).
Defined.

(** X20 at the [tag] of a [Shape] that holds the [std::string]
    alternative. *)
Lemma to_json_simple_each_alternative_Shape :
  let s := storage Shape_process in
  let obj := shape (1, Vstring "sq") (Some 5%Z) true in
  (get Shape_tag s = Normal "tag" ∧
   obj !! member_sel Shape_tag = Some (VariantValue 1 (Vstring "sq")) ∧
   positions Tint tag_alternatives 0 = [0] ∧
   positions Tstring tag_alternatives 0 = [1] ∧
   0 ≠ 1 ∧ is_document JNull) ∧
  (j ← to_json_simple s (variant tag_alternatives) Tint JNull Shape_tag obj;
   to_json_simple s (variant tag_alternatives) Tstring j Shape_tag obj)
  = Normal (JObj (<["tag" := adl_to_json Tstring (Vstring "sq")]>
                    (members_of JNull))) ∧
  (j ← to_json_simple s (variant tag_alternatives) Tstring JNull Shape_tag obj;
   to_json_simple s (variant tag_alternatives) Tint j Shape_tag obj)
  = Normal (JObj (<["tag" := adl_to_json Tstring (Vstring "sq")]>
                    (members_of JNull))).
Proof.
  intros s obj.
  assert (get Shape_tag s = Normal "tag") as H1 by reflexivity.
  assert (obj !! member_sel Shape_tag = Some (VariantValue 1 (Vstring "sq")))
    as H2 by reflexivity.
  assert (positions Tint tag_alternatives 0 = [0]) as H3 by reflexivity.
  assert (positions Tstring tag_alternatives 0 = [1]) as H4 by reflexivity.
  assert (0 ≠ 1) as H5 by lia.
  split; [split_and!; [exact H1|exact H2|exact H3|exact H4|exact H5|exact I]|].
  exact (to_json_simple_each_alternative s tag_alternatives Tint Tstring 0 1
           (Vstring "sq") JNull Shape_tag obj "tag" H1 H2 H3 H4 H5 I).
Defined.

End demo_more.
